(** * Debounced persistence layer of the infinite-canvas web components

    A shallow embedding of
    - the [debounce] helper (examples/main.ts, lines 14-25),
    - the [PersistenceManager] class,
    - [saveCanvas], [loadCanvas], [deleteCanvas] and [listCanvases] of
      [IndexedDbStorageService] (src/storage/IndexedDbStorageService.ts),
    - the auto-save of the example page (examples/main.ts),
    together with the properties the design document states about them.

    JavaScript runs these on a single-threaded event loop.  The loop is
    modelled explicitly: a clock, a queue of timers created by
    [setTimeout], and the settling of storage requests as separate events.
    Numbers that hold timestamps ([Date.now()], delays) are integers, [Z];
    a timer keeps its delay in 32 bits. *)

From Stdlib Require Import ZArith List Bool String Lia Permutation Sorted.
From Stdlib Require OrderedTypeEx.
Import ListNotations.
Local Open Scope Z_scope.

(** ** Timers of the event loop *)

Module Timers.

(** The delay as a timer of the page keeps it: a signed integer of 32 bits
    (the [long] of the timers of the HTML standard), so a number that does
    not fit wraps around, and a negative delay counts as 0.  A delay from
    0 to 2147483647 is kept as given. *)
Definition int32 (z : Z) : Z :=
  (z + 2147483648) mod 4294967296 - 2147483648.

Definition delay (ms : Z) : Z := Z.max 0 (int32 ms).

Arguments int32 !z /.
Arguments delay !ms /.

Section Queue.
Variable Cb : Type.

(** A pending timer: the id [setTimeout] returned, the time it is due and
    the callback it was given. *)
Record Timer := mkTimer { tid : nat; due : Z; cb : Cb }.

Record Loop := mkLoop { clock : Z; fresh : nat; queue : list Timer }.

(** [setTimeout(cb, ms)]: the timer is due [delay ms] from now. *)
Definition setTimeout (c : Cb) (ms : Z) (l : Loop) : Loop * nat :=
  (mkLoop (clock l) (S (fresh l))
          (queue l ++ [mkTimer (fresh l) (clock l + delay ms) c]),
   fresh l).

(** [clearTimeout(id)]: nothing happens for [undefined] or for an id
    that is no longer pending. *)
Definition clearTimeout (id : option nat) (l : Loop) : Loop :=
  match id with
  | None => l
  | Some i =>
      mkLoop (clock l) (fresh l)
             (filter (fun tm => negb (Nat.eqb (tid tm) i)) (queue l))
  end.

(** The timer that fires next, and the queue it leaves behind: the
    earliest due one, the one created first among equals. *)
Fixpoint pop_next (q : list Timer) : option (Timer * list Timer) :=
  match q with
  | [] => None
  | x :: q' =>
      match pop_next q' with
      | None => Some (x, q')
      | Some (y, r) =>
          if due x <=? due y then Some (x, q') else Some (y, x :: r)
      end
  end.

Section Run.
Variable S : Type.
(** What a callback does to the program's state when run at a given
    time.  No callback of this program creates or clears a timer. *)
Variable run_cb : Cb -> Z -> S -> S.

Record Machine := mkMachine { loop : Loop; app : S }.

(** The timer [tm] fires, [rest] being the other pending timers: the
    clock is at its due time (or later already) and its callback runs. *)
Definition fire_one (tm : Timer) (rest : list Timer) (m : Machine)
  : Machine :=
  let now := Z.max (clock (loop m)) (due tm) in
  mkMachine (mkLoop now (fresh (loop m)) rest)
            (run_cb (cb tm) now (app m)).

Fixpoint fire (fuel : nat) (T : Z) (m : Machine) : Machine :=
  match fuel with
  | O => m
  | Datatypes.S fuel' =>
      match pop_next (queue (loop m)) with
      | None => m
      | Some (tm, rest) =>
          if due tm <=? T then fire fuel' T (fire_one tm rest m) else m
      end
  end.

(** Time passes until [T]: every timer due by then fires, in order.
    Callbacks add no timers, so the queue's length is fuel enough. *)
Definition advance (T : Z) (m : Machine) : Machine :=
  let m' := fire (List.length (queue (loop m))) T m in
  mkMachine (mkLoop (Z.max (clock (loop m')) T) (fresh (loop m'))
                    (queue (loop m')))
            (app m').
End Run.
End Queue.

Arguments mkTimer {Cb}.
Arguments tid {Cb}.
Arguments due {Cb}.
Arguments cb {Cb}.
Arguments mkLoop {Cb}.
Arguments clock {Cb}.
Arguments fresh {Cb}.
Arguments queue {Cb}.
Arguments setTimeout {Cb}.
Arguments clearTimeout {Cb}.
Arguments pop_next {Cb}.
Arguments mkMachine {Cb S}.
Arguments loop {Cb S}.
Arguments app {Cb S}.
Arguments fire_one {Cb S}.
Arguments fire {Cb S}.
Arguments advance {Cb S}.

End Timers.

(** ** The debounce helper (examples/main.ts, lines 14-25) *)

Module Debounce.
Import Timers.

Section Helper.
(** [Cb]: the callbacks the surrounding program gives to [setTimeout];
    [A]: the values passed as arguments; [thunk args] stands for the
    arrow function [() => fn(...args)] of line 18. *)
Variables Cb A : Type.
Variable thunk : list A -> Cb.
Variable ms : Z.

(** Lines 17-18, acting on the closure's variable [timeoutId] and on the
    event loop. *)
Definition schedule (args : list A) (timeoutId : option nat) (l : Loop Cb)
  : option nat * Loop Cb :=
  let l1 := clearTimeout timeoutId l in
  let '(l2, id) := setTimeout (thunk args) ms l1 in
  (Some id, l2).

(** Line 21. *)
Definition cancel (timeoutId : option nat) (l : Loop Cb) : Loop Cb :=
  clearTimeout timeoutId l.
End Helper.

Arguments schedule {Cb A}.
Arguments cancel {Cb}.

Section Coordinator.
(** [U]: whatever the wrapped function [fn] acts on. *)
Variables A U : Type.
Variable fn : list A -> Z -> U -> U.
Variable ms : Z.

(** The closure: its variable [timeoutId] and, for the statements below,
    the record of every invocation of [fn] (when, with which arguments). *)
Record Closure := mkClosure {
  timeoutId : option nat;
  invoked : list (Z * list A);
  ustate : U
}.

Definition Coordinator := Machine (list A) Closure.

(** [fn(...args)] at time [now]. *)
Definition call_fn (args : list A) (now : Z) (c : Closure) : Closure :=
  mkClosure (timeoutId c) (invoked c ++ [(now, args)])
            (fn args now (ustate c)).

(** [debounced(...args)], lines 16-19. *)
Definition debounced (args : list A) (m : Coordinator) : Coordinator :=
  let '(id, l) :=
    schedule (fun a => a) ms args (timeoutId (app m)) (loop m) in
  mkMachine l (mkClosure id (invoked (app m)) (ustate (app m))).

(** [debounced.flush()], lines 20-23. *)
Definition flush (m : Coordinator) : Coordinator :=
  let l := cancel (timeoutId (app m)) (loop m) in
  mkMachine l (call_fn [] (clock l) (app m)).

(** Time passes; a timer that fires runs [fn(...args)]. *)
Definition tick (T : Z) (m : Coordinator) : Coordinator :=
  advance call_fn T m.

(** The loop is kept busy until [T]: the clock moves on and no timer
    gets to run, due or not. *)
Definition busy (T : Z) (m : Coordinator) : Coordinator :=
  mkMachine (mkLoop (Z.max (clock (loop m)) T) (fresh (loop m))
                    (queue (loop m)))
            (app m).

(** A call made at time [t] once the loop has run the timers due by then:
    the clock reaches [t], the timers due fire, then the call runs. *)
Definition call_at (c : Z * list A) (m : Coordinator) : Coordinator :=
  debounced (snd c) (tick (fst c) m).

(** A call made at time [t] before the loop has run the timers due by
    then (it was busy, or the call comes from the same task as the one
    before): the clock is at [t] and the timers are all still pending. *)
Definition call_ahead (c : Z * list A) (m : Coordinator) : Coordinator :=
  debounced (snd c) (busy (fst c) m).

Definition calls (cs : list (Z * list A)) (m : Coordinator) : Coordinator :=
  fold_left (fun m c => call_at c m) cs m.

(** Each call comes strictly less than [ms] after the one before. *)
Fixpoint burst (t : Z) (ts : list Z) : Prop :=
  match ts with
  | [] => True
  | t' :: ts' => (t <= t' < t + ms) /\ burst t' ts'
  end.

(** Each call comes at least [ms] after the one before. *)
Fixpoint spaced (t : Z) (ts : list Z) : Prop :=
  match ts with
  | [] => True
  | t' :: ts' => t + ms <= t' /\ spaced t' ts'
  end.

(** The state right after [debounce(fn, ms)] returned at time [t0]. *)
Definition init (t0 : Z) (u : U) : Coordinator :=
  mkMachine (mkLoop t0 O []) (mkClosure None [] u).

(** What [debounced], [flush] and the passing of time lead to. *)
Inductive reachable : Coordinator -> Prop :=
| reach_init t0 u : reachable (init t0 u)
| reach_call m args : reachable m -> reachable (debounced args m)
| reach_flush m : reachable m -> reachable (flush m)
| reach_tick m T : reachable m -> reachable (tick T m).

(** One timer is pending, due at [d] with the arguments [args], and the
    closure holds its id. *)
Definition armed (m : Coordinator) (d : Z) (args : list A) : Prop :=
  exists i,
    queue (loop m) = [mkTimer i d args] /\ timeoutId (app m) = Some i.

(** Every pending timer is the one whose id the closure holds. *)
Definition tracked (m : Coordinator) : Prop :=
  Forall (fun tm => timeoutId (app m) = Some (tid tm)) (queue (loop m)).
End Coordinator.

Arguments armed {A U}.
Arguments tracked {A U}.
Arguments mkClosure {A U}.
Arguments timeoutId {A U}.
Arguments invoked {A U}.
Arguments ustate {A U}.
Arguments call_fn {A U}.
Arguments debounced {A U}.
Arguments flush {A U}.
Arguments tick {A U}.
Arguments busy {A U}.
Arguments call_at {A U}.
Arguments call_ahead {A U}.
Arguments calls {A U}.
Arguments init {A U}.
Arguments reachable {A U}.

End Debounce.

(** ** Records of the storage contract (storage/StorageService.ts) *)

Module CanvasData.
Section Def.
Variables AppState SerializedNode : Type.
Record t := mk {
  id : string;
  name : string;
  nodes : list SerializedNode;
  appState : AppState;
  createdAt : Z;
  updatedAt : Z
}.
End Def.
Arguments mk {AppState SerializedNode}.
Arguments id {AppState SerializedNode}.
Arguments name {AppState SerializedNode}.
Arguments nodes {AppState SerializedNode}.
Arguments appState {AppState SerializedNode}.
Arguments createdAt {AppState SerializedNode}.
Arguments updatedAt {AppState SerializedNode}.
End CanvasData.

Module CanvasMetadata.
Record t := mk {
  id : string;
  name : string;
  createdAt : Z;
  updatedAt : Z
}.
End CanvasMetadata.

(** What became of a promise. *)
Inductive Settled (E R : Type) :=
| Resolved (r : R)
| Rejected (e : E).
Arguments Resolved {E R}.
Arguments Rejected {E R}.

(** JavaScript's truthiness of a [string | null] or [string | undefined]
    value: the empty string counts as false. *)
Definition truthy (s : option string) : bool :=
  match s with
  | Some EmptyString => false
  | Some _ => true
  | None => false
  end.

(** ** The persistence manager *)

Module PersistenceManager.
Import Timers.

Definition Error := string.

(** An error handler given to [setErrorHandler]: called with the error it
    either returns ([None]) or throws something itself. *)
Definition Handler := Error -> option Error.

(** The callbacks the class gives to [setTimeout]: the debounced call of
    [save] (through the helper), the release of the loading lock (line 86)
    and the end of [forceSave]'s wait (line 109). *)
Inductive Callback := DebouncedSave | ReleaseLock | GraceElapsed.

Inductive LogLine :=
| LogSaved (canvas : option string)
| LogSaveFailed (e : Error).

Section Manager.
Variables AppState SerializedNode : Type.

Record Snapshot := mkSnapshot {
  appState : AppState;
  nodes : list SerializedNode
}.

(** The fields of the class, the [timeoutId] of its [debouncedSave]
    closure and, recorded for the statements below, what the manager did to
    the outside: the records handed to [storage.saveCanvas], the lines
    given to the console, the errors given to the handler, and the
    rejections of promises that nobody holds. *)
Record State := mkState {
  canvasId : option string;
  canvasName : string;
  createdAt : Z;
  isLoading : bool;
  onSaveError : option Handler;
  currentSnapshot : option Snapshot;
  timeoutId : option nat;
  written : list (CanvasData.t AppState SerializedNode);
  console : list LogLine;
  reported : list Error;
  unhandled : list Error
}.

Definition set_canvasId (v : option string) (s : State) : State :=
  mkState v (canvasName s) (createdAt s) (isLoading s) (onSaveError s)
          (currentSnapshot s) (timeoutId s) (written s) (console s)
          (reported s) (unhandled s).

Definition set_canvasName (v : string) (s : State) : State :=
  mkState (canvasId s) v (createdAt s) (isLoading s) (onSaveError s)
          (currentSnapshot s) (timeoutId s) (written s) (console s)
          (reported s) (unhandled s).

Definition set_createdAt (v : Z) (s : State) : State :=
  mkState (canvasId s) (canvasName s) v (isLoading s) (onSaveError s)
          (currentSnapshot s) (timeoutId s) (written s) (console s)
          (reported s) (unhandled s).

Definition set_isLoading (v : bool) (s : State) : State :=
  mkState (canvasId s) (canvasName s) (createdAt s) v (onSaveError s)
          (currentSnapshot s) (timeoutId s) (written s) (console s)
          (reported s) (unhandled s).

Definition set_onSaveError (v : option Handler) (s : State) : State :=
  mkState (canvasId s) (canvasName s) (createdAt s) (isLoading s) v
          (currentSnapshot s) (timeoutId s) (written s) (console s)
          (reported s) (unhandled s).

Definition set_currentSnapshot (v : option Snapshot) (s : State) : State :=
  mkState (canvasId s) (canvasName s) (createdAt s) (isLoading s)
          (onSaveError s) v (timeoutId s) (written s) (console s)
          (reported s) (unhandled s).

Definition set_timeoutId (v : option nat) (s : State) : State :=
  mkState (canvasId s) (canvasName s) (createdAt s) (isLoading s)
          (onSaveError s) (currentSnapshot s) v (written s) (console s)
          (reported s) (unhandled s).

Definition set_written (v : list (CanvasData.t AppState SerializedNode))
  (s : State) : State :=
  mkState (canvasId s) (canvasName s) (createdAt s) (isLoading s)
          (onSaveError s) (currentSnapshot s) (timeoutId s) v (console s)
          (reported s) (unhandled s).

Definition set_console (v : list LogLine) (s : State) : State :=
  mkState (canvasId s) (canvasName s) (createdAt s) (isLoading s)
          (onSaveError s) (currentSnapshot s) (timeoutId s) (written s) v
          (reported s) (unhandled s).

Definition set_reported (v : list Error) (s : State) : State :=
  mkState (canvasId s) (canvasName s) (createdAt s) (isLoading s)
          (onSaveError s) (currentSnapshot s) (timeoutId s) (written s)
          (console s) v (unhandled s).

Definition set_unhandled (v : list Error) (s : State) : State :=
  mkState (canvasId s) (canvasName s) (createdAt s) (isLoading s)
          (onSaveError s) (currentSnapshot s) (timeoutId s) (written s)
          (console s) (reported s) v.

Definition World := Machine Callback State.

Definition on_app (f : State -> State) (w : World) : World :=
  mkMachine (loop w) (f (app w)).

(** [setCanvasId(id, name?)], lines 16-19. *)
Definition setCanvasId (id : string) (name : option string) (w : World)
  : World :=
  let w1 := on_app (set_canvasId (Some id)) w in
  match name with
  | Some n => if truthy name then on_app (set_canvasName n) w1 else w1
  | None => w1
  end.

(** [getCanvasId()], lines 21-23. *)
Definition getCanvasId (w : World) : option string := canvasId (app w).

(** [setErrorHandler(handler)], lines 25-27. *)
Definition setErrorHandler (handler : Handler) (w : World) : World :=
  on_app (set_onSaveError (Some handler)) w.

(** Modelled from the spec: the [debounce] that the class imports from
    '../utils' is not among the sources; the coordinator of the design
    document (section 4.1) is the helper of examples/main.ts, which is
    what [this.debouncedSave()] uses here, applied to
    [() => this.save()] and 1000 (line 12). *)
Definition debouncedSave (w : World) : World :=
  let '(id, l) :=
    Debounce.schedule (fun _ : list Empty_set => DebouncedSave) 1000 []
                      (timeoutId (app w)) (loop w) in
  mkMachine l (set_timeoutId id (app w)).

(** [onStateChange(snapshot)], lines 30-38. *)
Definition onStateChange (snapshot : Snapshot) (w : World) : World :=
  if isLoading (app w) then w
  else if truthy (canvasId (app w)) then
    debouncedSave (on_app (set_currentSnapshot (Some snapshot)) w)
  else w.

(** [updateSnapshot(snapshot)], lines 42-45. *)
Definition updateSnapshot (snapshot : Snapshot) (w : World) : World :=
  onStateChange snapshot (on_app (set_currentSnapshot (Some snapshot)) w).

(** The guard of line 48. *)
Definition save_guard (s : State) : bool :=
  negb (truthy (canvasId s))
  || match currentSnapshot s with Some _ => false | None => true end
  || isLoading s.

(** [save()], lines 47-60, up to its [await]: run at time [now], it
    either returns at the guard or hands a record to
    [storage.saveCanvas]. *)
Definition save (now : Z) (s : State) : State :=
  if save_guard s then s
  else
    match canvasId s, currentSnapshot s with
    | Some i, Some snap =>
        let canvasData :=
          CanvasData.mk i (canvasName s) (nodes snap) (appState snap)
                        (createdAt s) now in
        set_written (written s ++ [canvasData]) s
    | _, _ => s
    end.

Inductive WriteOutcome := WriteOk | WriteFailed (e : Error).

(** [save()], lines 61-67: what runs once the write has settled.  The
    promise of [save] is held by nobody (the helper drops it), so an error
    thrown by the handler ends as an unhandled rejection. *)
Definition save_settled (o : WriteOutcome) (s : State) : State :=
  match o with
  | WriteOk => set_console (console s ++ [LogSaved (canvasId s)]) s
  | WriteFailed e =>
      let s1 := set_console (console s ++ [LogSaveFailed e]) s in
      match onSaveError s1 with
      | Some handler =>
          let s2 := set_reported (reported s1 ++ [e]) s1 in
          match handler e with
          | None => s2
          | Some thrown => set_unhandled (unhandled s2 ++ [thrown]) s2
          end
      | None => s1
      end
  end.

Inductive ReadOutcome :=
| Found (data : CanvasData.t AppState SerializedNode)
| NotFound
| ReadFailed (e : Error).

(** [loadCanvas(id)], lines 70-73, up to its [await]. *)
Definition loadCanvas (id : string) (w : World) : World :=
  on_app (set_isLoading true) w.

(** The [finally] block, lines 84-89. *)
Definition release_later (w : World) : World :=
  mkMachine (fst (setTimeout ReleaseLock 100 (loop w))) (app w).

(** [loadCanvas(id)], lines 74-89: what runs once the read has settled,
    and what becomes of the promise the caller holds. *)
Definition loadCanvas_settled (o : ReadOutcome) (w : World)
  : World * Settled Error (option (CanvasData.t AppState SerializedNode)) :=
  match o with
  | Found data =>
      let s1 := set_canvasId (Some (CanvasData.id data)) (app w) in
      let s2 := set_canvasName (CanvasData.name data) s1 in
      let s3 := set_createdAt (CanvasData.createdAt data) s2 in
      let s4 := set_currentSnapshot
                  (Some (mkSnapshot (CanvasData.appState data)
                                    (CanvasData.nodes data))) s3 in
      (release_later (mkMachine (loop w) s4), Resolved (Some data))
  | NotFound => (release_later w, Resolved None)
  | ReadFailed e => (release_later w, Rejected e)
  end.

(** [createNewCanvas(name?)], lines 92-98; [generated] is what
    [storage.generateId()] returned. *)
Definition createNewCanvas (name : option string) (generated : string)
  (w : World) : World * string :=
  let s1 := set_canvasId (Some generated) (app w) in
  let s2 := set_canvasName
              (match name with
               | Some n => if truthy name then n else "Untitled Canvas"
               | None => "Untitled Canvas"
               end%string) s1 in
  let s3 := set_createdAt (clock (loop w)) s2 in
  let s4 := set_currentSnapshot None s3 in
  (mkMachine (loop w) s4, generated).

(** [forceSave()], lines 106-110: the helper's [flush], then a timer of
    50 whose callback lets the caller go on. *)
Definition forceSave (w : World) : World :=
  let l := Debounce.cancel (timeoutId (app w)) (loop w) in
  let s := save (clock l) (app w) in
  mkMachine (fst (setTimeout GraceElapsed 50 l)) s.

(** What the callbacks do when their timer fires. *)
Definition run_cb (c : Callback) (now : Z) (s : State) : State :=
  match c with
  | DebouncedSave => save now s
  | ReleaseLock => set_isLoading false s
  | GraceElapsed => s
  end.

Definition tick (T : Z) (w : World) : World := advance run_cb T w.

(** The manager at the end of its constructor, run at time [t0]. *)
Definition init (t0 : Z) : World :=
  mkMachine (mkLoop t0 O [])
            (mkState None "Untitled Canvas" t0 false None None None
                     [] [] [] []).

(** What the program around the manager does: it calls the methods, and
    lets time pass. *)
Inductive Action :=
| CallSetCanvasId (id : string) (name : option string)
| CallSetErrorHandler (handler : Handler)
| CallOnStateChange (snapshot : Snapshot)
| CallUpdateSnapshot (snapshot : Snapshot)
| CallLoadCanvas (id : string)
| CallCreateNewCanvas (name : option string) (generated : string)
| CallForceSave
| TimePasses (T : Z).

Definition act (w : World) (a : Action) : World :=
  match a with
  | CallSetCanvasId id name => setCanvasId id name w
  | CallSetErrorHandler h => setErrorHandler h w
  | CallOnStateChange s => onStateChange s w
  | CallUpdateSnapshot s => updateSnapshot s w
  | CallLoadCanvas id => loadCanvas id w
  | CallCreateNewCanvas name generated =>
      fst (createNewCanvas name generated w)
  | CallForceSave => forceSave w
  | TimePasses T => tick T w
  end.

(** Everything that can happen to a manager: an action of the program, or
    a promise of the storage settling, with any outcome (the storage is
    any implementation of [StorageService]). *)
Inductive Event :=
| Does (a : Action)
| ReadSettled (o : ReadOutcome)
| WriteSettled (o : WriteOutcome).

Definition step (w : World) (ev : Event) : World :=
  match ev with
  | Does a => act w a
  | ReadSettled o => fst (loadCanvas_settled o w)
  | WriteSettled o => on_app (save_settled o) w
  end.

Definition run (evs : list Event) (w : World) : World :=
  fold_left step evs w.

(** The session: which canvas is open, under which name, created when,
    and the snapshot waiting to be written. *)
Definition session (s : State)
  : option string * string * Z * option Snapshot :=
  (canvasId s, canvasName s, createdAt s, currentSnapshot s).

(** No timer of an earlier load is still waiting to release the lock. *)
Definition no_release_pending (w : World) : Prop :=
  Forall (fun tm => cb tm <> ReleaseLock) (queue (loop w)).

(** A handler that returns whatever error it is given. *)
Definition returns_normally (handler : Handler) : Prop :=
  forall e, handler e = None.

Definition handler_returns (s : State) : Prop :=
  match onSaveError s with
  | Some handler => returns_normally handler
  | None => True
  end.

(** The handler in place returns, and no error has escaped. *)
Definition quiet (s : State) : Prop :=
  handler_returns s /\ unhandled s = [].

(** The order of [updatedAt] along the successive writes. *)
Definition updatedAt_le (a b : CanvasData.t AppState SerializedNode) : Prop :=
  CanvasData.updatedAt a <= CanvasData.updatedAt b.

(** The records in [written] are in the order of their [updatedAt], none
    later than the clock. *)
Definition writes_in_order (w : World) : Prop :=
  StronglySorted updatedAt_le (written (app w)) /\
  Forall (fun r => CanvasData.updatedAt r <= clock (loop w))
         (written (app w)).

(** Since the state [s0], the session is on the same canvas with the same
    [createdAt], and every record written carries both. *)
Definition same_session (s0 s : State) : Prop :=
  canvasId s = canvasId s0 /\ createdAt s = createdAt s0 /\
  exists new,
    written s = written s0 ++ new /\
    Forall (fun r => Some (CanvasData.id r) = canvasId s0 /\
                     CanvasData.createdAt r = createdAt s0) new.

Definition registers_returning (ev : Event) : Prop :=
  match ev with
  | Does (CallSetErrorHandler handler) => returns_normally handler
  | _ => True
  end.

(** The events that leave the session on the canvas it is on: all but
    [setCanvasId], [createNewCanvas] and a load that found a record. *)
Definition keeps_session (ev : Event) : Prop :=
  match ev with
  | Does (CallSetCanvasId _ _) => False
  | Does (CallCreateNewCanvas _ _) => False
  | ReadSettled (Found _) => False
  | _ => True
  end.

End Manager.

Arguments mkSnapshot {AppState SerializedNode}.
Arguments appState {AppState SerializedNode}.
Arguments nodes {AppState SerializedNode}.
Arguments mkState {AppState SerializedNode}.
Arguments canvasId {AppState SerializedNode}.
Arguments canvasName {AppState SerializedNode}.
Arguments createdAt {AppState SerializedNode}.
Arguments isLoading {AppState SerializedNode}.
Arguments onSaveError {AppState SerializedNode}.
Arguments currentSnapshot {AppState SerializedNode}.
Arguments timeoutId {AppState SerializedNode}.
Arguments written {AppState SerializedNode}.
Arguments console {AppState SerializedNode}.
Arguments reported {AppState SerializedNode}.
Arguments unhandled {AppState SerializedNode}.
Arguments set_canvasId {AppState SerializedNode}.
Arguments set_canvasName {AppState SerializedNode}.
Arguments set_createdAt {AppState SerializedNode}.
Arguments set_isLoading {AppState SerializedNode}.
Arguments set_onSaveError {AppState SerializedNode}.
Arguments set_currentSnapshot {AppState SerializedNode}.
Arguments set_timeoutId {AppState SerializedNode}.
Arguments set_written {AppState SerializedNode}.
Arguments set_console {AppState SerializedNode}.
Arguments set_reported {AppState SerializedNode}.
Arguments set_unhandled {AppState SerializedNode}.
Arguments on_app {AppState SerializedNode}.
Arguments setCanvasId {AppState SerializedNode}.
Arguments getCanvasId {AppState SerializedNode}.
Arguments setErrorHandler {AppState SerializedNode}.
Arguments debouncedSave {AppState SerializedNode}.
Arguments onStateChange {AppState SerializedNode}.
Arguments updateSnapshot {AppState SerializedNode}.
Arguments save_guard {AppState SerializedNode}.
Arguments save {AppState SerializedNode}.
Arguments save_settled {AppState SerializedNode}.
Arguments Found {AppState SerializedNode}.
Arguments NotFound {AppState SerializedNode}.
Arguments ReadFailed {AppState SerializedNode}.
Arguments loadCanvas {AppState SerializedNode}.
Arguments release_later {AppState SerializedNode}.
Arguments loadCanvas_settled {AppState SerializedNode}.
Arguments createNewCanvas {AppState SerializedNode}.
Arguments forceSave {AppState SerializedNode}.
Arguments run_cb {AppState SerializedNode}.
Arguments tick {AppState SerializedNode}.
Arguments init {AppState SerializedNode}.
Arguments session {AppState SerializedNode}.
Arguments no_release_pending {AppState SerializedNode}.
Arguments handler_returns {AppState SerializedNode}.
Arguments quiet {AppState SerializedNode}.
Arguments writes_in_order {AppState SerializedNode}.
Arguments same_session {AppState SerializedNode}.
Arguments registers_returning {AppState SerializedNode}.
Arguments keeps_session {AppState SerializedNode}.
Arguments updatedAt_le {AppState SerializedNode}.
Arguments act {AppState SerializedNode}.
Arguments Does {AppState SerializedNode}.
Arguments CallSetCanvasId {AppState SerializedNode}.
Arguments CallSetErrorHandler {AppState SerializedNode}.
Arguments CallOnStateChange {AppState SerializedNode}.
Arguments CallUpdateSnapshot {AppState SerializedNode}.
Arguments CallLoadCanvas {AppState SerializedNode}.
Arguments ReadSettled {AppState SerializedNode}.
Arguments CallCreateNewCanvas {AppState SerializedNode}.
Arguments CallForceSave {AppState SerializedNode}.
Arguments WriteSettled {AppState SerializedNode}.
Arguments TimePasses {AppState SerializedNode}.
Arguments step {AppState SerializedNode}.
Arguments run {AppState SerializedNode}.

End PersistenceManager.

(** ** Listing the stored canvases
    (src/storage/IndexedDbStorageService.ts, lines 64-83) *)

Module IndexedDbStorageService.

Section Sort.
Variable X : Type.
(** A comparator as [Array.prototype.sort] takes it: negative when the
    first argument goes first, positive when the second does. *)
Variable compareFn : X -> X -> Z.

Fixpoint insert (x : X) (l : list X) : list X :=
  match l with
  | [] => [x]
  | y :: l' => if compareFn x y <=? 0 then x :: l else y :: insert x l'
  end.

(** [Array.prototype.sort(compareFn)]: a stable sort (elements that
    compare as equal keep their order), here by insertion from the right. *)
Fixpoint sort (l : list X) : list X :=
  match l with
  | [] => []
  | x :: l' => insert x (sort l')
  end.
End Sort.
Arguments insert {X}.
Arguments sort {X}.

Section Service.
Variables AppState SerializedNode : Type.

(** The arrow function of lines 73-78. *)
Definition metadata_of (c : CanvasData.t AppState SerializedNode)
  : CanvasMetadata.t :=
  CanvasMetadata.mk (CanvasData.id c) (CanvasData.name c)
                    (CanvasData.createdAt c) (CanvasData.updatedAt c).

(** The comparator of line 78. *)
Definition by_updatedAt_desc (a b : CanvasMetadata.t) : Z :=
  CanvasMetadata.updatedAt b - CanvasMetadata.updatedAt a.

(** [request.onsuccess], lines 71-80; [canvases] is [request.result], all
    the records of the store. *)
Definition onsuccess (canvases : list (CanvasData.t AppState SerializedNode))
  : list CanvasMetadata.t :=
  sort by_updatedAt_desc (map metadata_of canvases).

(** The object store 'canvases', created with [keyPath: 'id'] (line 24):
    its records, one for a key, in the order of the keys (as [getAll]
    returns them; ids are compared as strings of bytes). *)
Definition ObjectStore := list (CanvasData.t AppState SerializedNode).

(** [store.put(canvas)], line 36: the record takes the place of the one
    with its id, if there is one. *)
Fixpoint put (canvas : CanvasData.t AppState SerializedNode)
  (store : ObjectStore) : ObjectStore :=
  match store with
  | [] => [canvas]
  | c :: store' =>
      match String.compare (CanvasData.id canvas) (CanvasData.id c) with
      | Lt => canvas :: store
      | Eq => canvas :: store'
      | Gt => c :: put canvas store'
      end
  end.

(** [store.get(id)], line 47. *)
Fixpoint get (id : string) (store : ObjectStore)
  : option (CanvasData.t AppState SerializedNode) :=
  match store with
  | [] => None
  | c :: store' =>
      if String.eqb (CanvasData.id c) id then Some c else get id store'
  end.

(** [saveCanvas(canvas)], lines 31-40; [failure] is the error of the
    request when it fails. *)
Definition saveCanvas (canvas : CanvasData.t AppState SerializedNode)
  (failure : option string) (store : ObjectStore)
  : ObjectStore * Settled string unit :=
  match failure with
  | None => (put canvas store, Resolved tt)
  | Some e => (store, Rejected e)
  end.

(** [loadCanvas(id)], lines 42-51: [request.result || null]. *)
Definition loadCanvas (id : string) (failure : option string)
  (store : ObjectStore)
  : Settled string (option (CanvasData.t AppState SerializedNode)) :=
  match failure with
  | None => Resolved (get id store)
  | Some e => Rejected e
  end.

(** [store.delete(id)], line 58: the record of that key goes, if there
    is one. *)
Definition delete (id : string) (store : ObjectStore) : ObjectStore :=
  filter (fun c => negb (String.eqb (CanvasData.id c) id)) store.

(** [deleteCanvas(id)], lines 53-62. *)
Definition deleteCanvas (id : string) (failure : option string)
  (store : ObjectStore) : ObjectStore * Settled string unit :=
  match failure with
  | None => (delete id store, Resolved tt)
  | Some e => (store, Rejected e)
  end.

(** The records of a store are in the strict order of their keys, so no
    two have the same id. *)
Definition keyed (store : ObjectStore) : Prop :=
  StronglySorted
    (fun a b => String.compare (CanvasData.id a) (CanvasData.id b) = Lt)
    store.

(** [listCanvases()]: the promise resolves with the sorted metadata when
    the [getAll] request succeeds and rejects with the request's error
    otherwise. *)
Definition listCanvases
  (getAll : Settled string (list (CanvasData.t AppState SerializedNode)))
  : Settled string (list CanvasMetadata.t) :=
  match getAll with
  | Resolved canvases => Resolved (onsuccess canvases)
  | Rejected e => Rejected e
  end.
End Service.

(** Descending order of [updatedAt], with and without ties. *)
Definition newer_or_same (a b : CanvasMetadata.t) : Prop :=
  CanvasMetadata.updatedAt a >= CanvasMetadata.updatedAt b.

Definition strictly_newer (a b : CanvasMetadata.t) : Prop :=
  CanvasMetadata.updatedAt a > CanvasMetadata.updatedAt b.

Definition updated_at (u : Z) (a : CanvasMetadata.t) : bool :=
  CanvasMetadata.updatedAt a =? u.

Arguments metadata_of {AppState SerializedNode}.
Arguments put {AppState SerializedNode}.
Arguments get {AppState SerializedNode}.
Arguments saveCanvas {AppState SerializedNode}.
Arguments loadCanvas {AppState SerializedNode}.
Arguments delete {AppState SerializedNode}.
Arguments deleteCanvas {AppState SerializedNode}.
Arguments keyed {AppState SerializedNode}.
Arguments onsuccess {AppState SerializedNode}.
Arguments listCanvases {AppState SerializedNode}.

End IndexedDbStorageService.

(** ** The manager on top of the IndexedDB service *)

Module Backed.
Import Timers PersistenceManager.

Section Backed.
Variables AppState SerializedNode : Type.

(** A request the manager has made and the service has not answered. *)
Inductive Request :=
| Put (canvas : CanvasData.t AppState SerializedNode)
| Get (id : string).

(** The manager, the object store behind the service, and the requests
    under way, oldest first: the transactions on the store end in the
    order they were made. *)
Record System := mkSystem {
  world : World AppState SerializedNode;
  store : IndexedDbStorageService.ObjectStore AppState SerializedNode;
  requests : list Request
}.

Inductive SystemEvent :=
| Act (a : Action AppState SerializedNode)
| Settle (failure : option Error).

(** The requests an action makes: a [Put] for every record it handed to
    [storage.saveCanvas], a [Get] for a [loadCanvas]. *)
Definition requests_of (a : Action AppState SerializedNode)
  (before after : World AppState SerializedNode) : list Request :=
  map Put (skipn (List.length (written (app before))) (written (app after)))
  ++ match a with
     | CallLoadCanvas id => [Get id]
     | _ => []
     end.

Definition system_step (b : System) (ev : SystemEvent) : System :=
  match ev with
  | Act a =>
      let w' := act (world b) a in
      mkSystem w' (store b) (requests b ++ requests_of a (world b) w')
  | Settle failure =>
      match requests b with
      | [] => b
      | Put canvas :: rest =>
          let '(store', r) :=
            IndexedDbStorageService.saveCanvas canvas failure (store b) in
          let o := match r with
                   | Resolved _ => WriteOk
                   | Rejected e => WriteFailed e
                   end in
          mkSystem (step (world b) (WriteSettled o)) store' rest
      | Get id :: rest =>
          let o := match IndexedDbStorageService.loadCanvas id failure
                           (store b) with
                   | Resolved (Some data) => Found data
                   | Resolved None => NotFound
                   | Rejected e => ReadFailed e
                   end in
          mkSystem (step (world b) (ReadSettled o)) (store b) rest
      end
  end.

Definition system_run (evs : list SystemEvent) (b : System) : System :=
  fold_left system_step evs b.

(** A manager made at time [t0] in front of a store. *)
Definition system_init (t0 : Z)
  (store0 : IndexedDbStorageService.ObjectStore AppState SerializedNode)
  : System :=
  mkSystem (init t0) store0 [].

(** The records stored and the records ever handed to the service. *)
Definition records (b : System)
  : list (CanvasData.t AppState SerializedNode) :=
  store b ++ written (app (world b)).

Definition agree (r1 r2 : CanvasData.t AppState SerializedNode) : Prop :=
  CanvasData.id r1 = CanvasData.id r2 ->
  CanvasData.createdAt r1 = CanvasData.createdAt r2.

(** One [createdAt] for an id, in the store and in what was written; the
    session has the [createdAt] of the records of its canvas; every [Put]
    under way is for a record the manager wrote. *)
Definition consistent (b : System) : Prop :=
  (forall r1 r2, In r1 (records b) -> In r2 (records b) -> agree r1 r2) /\
  (forall r, In r (records b) ->
             canvasId (app (world b)) = Some (CanvasData.id r) ->
             CanvasData.createdAt r = createdAt (app (world b))) /\
  (forall canvas, In (Put canvas) (requests b) ->
                  In canvas (written (app (world b)))).

(** The session is put on a canvas by [loadCanvas], by [createNewCanvas]
    with an id that no record has, or by [setCanvasId] with an id whose
    records, if there are any, carry the [createdAt] of the session: an
    id that no record has, or the one the session is on already. *)
Definition allowed (b : System) (ev : SystemEvent) : Prop :=
  match ev with
  | Act (CallSetCanvasId id _) =>
      forall r, In r (records b) -> CanvasData.id r = id ->
                CanvasData.createdAt r = createdAt (app (world b))
  | Act (CallCreateNewCanvas _ generated) =>
      forall r, In r (records b) -> CanvasData.id r <> generated
  | _ => True
  end.

Fixpoint admissible (evs : list SystemEvent) (b : System) : Prop :=
  match evs with
  | [] => True
  | ev :: evs' => allowed b ev /\ admissible evs' (system_step b ev)
  end.
End Backed.

Arguments Put {AppState SerializedNode}.
Arguments Get {AppState SerializedNode}.
Arguments mkSystem {AppState SerializedNode}.
Arguments world {AppState SerializedNode}.
Arguments store {AppState SerializedNode}.
Arguments requests {AppState SerializedNode}.
Arguments Act {AppState SerializedNode}.
Arguments Settle {AppState SerializedNode}.
Arguments requests_of {AppState SerializedNode}.
Arguments system_step {AppState SerializedNode}.
Arguments system_run {AppState SerializedNode}.
Arguments system_init {AppState SerializedNode}.
Arguments records {AppState SerializedNode}.
Arguments agree {AppState SerializedNode}.
Arguments consistent {AppState SerializedNode}.
Arguments allowed {AppState SerializedNode}.
Arguments admissible {AppState SerializedNode}.

End Backed.

(** ** The timers of a manager, and bursts of changes *)

Module Lifecycle.
Import Timers PersistenceManager.

(** The timers of a loop and the id held by the debounce helper fit
    together: the ids of the pending timers are distinct and below the
    next one, so is the id held, and a pending timer is the debounced save
    exactly when it is the one whose id is held. *)
Definition timed (l : Loop Callback) (held : option nat) : Prop :=
  NoDup (map tid (queue l)) /\
  Forall (fun tm => (tid tm < fresh l)%nat) (queue l) /\
  (forall i, held = Some i -> (i < fresh l)%nat) /\
  Forall (fun tm => cb tm = DebouncedSave <-> held = Some (tid tm))
         (queue l).

Definition is_save (tm : Timer Callback) : bool :=
  match cb tm with DebouncedSave => true | _ => false end.

Definition is_release (tm : Timer Callback) : bool :=
  match cb tm with ReleaseLock => true | _ => false end.

Section Lifecycle.
Variables AppState SerializedNode : Type.

Definition well_timed (w : World AppState SerializedNode) : Prop :=
  timed (loop w) (timeoutId (app w)).

(** The debounced saves that are scheduled. *)
Definition scheduled_saves (w : World AppState SerializedNode)
  : list (Timer Callback) :=
  filter is_save (queue (loop w)).

(** A change notified at time [t]: the clock reaches [t], then
    [onStateChange(snapshot)] runs. *)
Definition change_at (c : Z * Snapshot AppState SerializedNode)
  (w : World AppState SerializedNode) : World AppState SerializedNode :=
  onStateChange (snd c) (tick (fst c) w).

Definition changes (cs : list (Z * Snapshot AppState SerializedNode))
  (w : World AppState SerializedNode) : World AppState SerializedNode :=
  fold_left (fun w c => change_at c w) cs w.

(** The record [save] makes of a state at time [now], for the id [i] and
    the snapshot [snap]. *)
Definition record_of (i : string) (snap : Snapshot AppState SerializedNode)
  (now : Z) (s : State AppState SerializedNode)
  : CanvasData.t AppState SerializedNode :=
  CanvasData.mk i (canvasName s) (nodes snap) (appState snap)
                (createdAt s) now.

(** A debounced save is scheduled for the time [d]. *)
Definition save_pending (w : World AppState SerializedNode) (d : Z)
  : Prop :=
  exists tm,
    In tm (queue (loop w)) /\ cb tm = DebouncedSave /\ due tm = d.

(** The manager, on canvas [i] and not loading, has taken the snapshot
    [s] at time [t] and waits to save it. *)
Definition awaiting (w : World AppState SerializedNode) (i : string)
  (t : Z) (s : Snapshot AppState SerializedNode) : Prop :=
  well_timed w /\ isLoading (app w) = false /\
  canvasId (app w) = Some i /\ currentSnapshot (app w) = Some s /\
  clock (loop w) = t /\ save_pending w (t + 1000).

(** Events that do not put the session on a canvas. *)
Definition keeps_id (ev : Event AppState SerializedNode) : Prop :=
  match ev with
  | Does (CallSetCanvasId _ _) => False
  | Does (CallCreateNewCanvas _ _) => False
  | ReadSettled (Found _) => False
  | _ => True
  end.

(** Events that bring no snapshot. *)
Definition brings_no_snapshot (ev : Event AppState SerializedNode) : Prop :=
  match ev with
  | Does (CallOnStateChange _) => False
  | Does (CallUpdateSnapshot _) => False
  | ReadSettled (Found _) => False
  | _ => True
  end.

(** Events that bring no record with an empty name. *)
Definition loads_named (ev : Event AppState SerializedNode) : Prop :=
  match ev with
  | ReadSettled (Found data) => CanvasData.name data <> EmptyString
  | _ => True
  end.

(** Events that start no load. *)
Definition starts_no_load (ev : Event AppState SerializedNode) : Prop :=
  match ev with
  | Does (CallLoadCanvas _) => False
  | _ => True
  end.
End Lifecycle.

Arguments well_timed {AppState SerializedNode}.
Arguments scheduled_saves {AppState SerializedNode}.
Arguments save_pending {AppState SerializedNode}.
Arguments awaiting {AppState SerializedNode}.
Arguments change_at {AppState SerializedNode}.
Arguments changes {AppState SerializedNode}.
Arguments record_of {AppState SerializedNode}.
Arguments keeps_id {AppState SerializedNode}.
Arguments brings_no_snapshot {AppState SerializedNode}.
Arguments starts_no_load {AppState SerializedNode}.
Arguments loads_named {AppState SerializedNode}.

End Lifecycle.

(** ** The example page (examples/main.ts) *)

Module ExamplePage.
Import Timers.

Section Page.
Variables AppState SerializedNode : Type.

(** The editor's API as the page uses it: what [getNodes()] and
    [getAppState()] answer at the moment. *)
Record Api := mkApi {
  getNodes : list SerializedNode;
  getAppState : AppState
}.

(** The variables of lines 9-11 and, recorded for the statements below,
    the records handed to [storage.saveCanvas]. *)
Record Vars := mkVars {
  currentCanvasId : option string;
  currentApi : option Api;
  isLoading : bool;
  saved : list (CanvasData.t AppState SerializedNode)
}.

(** The clock is read twice while a record is built, [Date.now()] on
    line 36 and again on line 37: [later n t] is what the second reading
    gives when the first gave [t], for the record that comes after [n]
    others. *)
Variable later : nat -> Z -> Z.

(** The function given to [debounce], lines 28-40, up to its [await]. *)
Definition autosave (args : list Empty_set) (now : Z) (v : Vars) : Vars :=
  match currentCanvasId v, currentApi v with
  | Some id, Some api =>
      if negb (truthy (currentCanvasId v)) || isLoading v then v
      else
        let canvasData :=
          CanvasData.mk id "Untitled Canvas" (getNodes api)
                        (getAppState api) now
                        (later (List.length (saved v)) now) in
        mkVars (currentCanvasId v) (currentApi v) (isLoading v)
               (saved v ++ [canvasData])
  | _, _ => v
  end.

(** The page: the closure of [saveCanvas = debounce(..., 1000)] with the
    variables it acts on. *)
Definition Page := Debounce.Coordinator Empty_set Vars.

Definition vars (p : Page) : Vars := Debounce.ustate (app p).

Definition on_vars (f : Vars -> Vars) (p : Page) : Page :=
  mkMachine (loop p)
            (Debounce.mkClosure (Debounce.timeoutId (app p))
                                (Debounce.invoked (app p))
                                (f (vars p))).

(** [saveCanvas()] and [saveCanvas.flush()]. *)
Definition saveCanvas (p : Page) : Page := Debounce.debounced 1000 [] p.

Definition saveCanvas_flush (p : Page) : Page := Debounce.flush autosave p.

(** [api.onchange], lines 111-115. *)
Definition onchange (p : Page) : Page :=
  if isLoading (vars p) then p else saveCanvas p.

(** [openCanvas(id?)], lines 92-93; [generated] is what
    [storage.generateId()] returns when it is asked. *)
Definition openCanvas (id : option string) (generated : string)
  (p : Page) : Page :=
  on_vars (fun v =>
             mkVars (match id with
                     | Some i => if truthy id then Some i else Some generated
                     | None => Some generated
                     end)
                    (currentApi v) true (saved v)) p.

(** The listener of the READY event, lines 107-119 and 143-146, up to
    its [await]: without an id the lock is released at once. *)
Definition ready (id : option string) (api : Api) (p : Page) : Page :=
  on_vars (fun v =>
             mkVars (currentCanvasId v) (Some api)
                    (if truthy id then isLoading v else false)
                    (saved v)) p.

Inductive LoadOutcome :=
| Found (data : CanvasData.t AppState SerializedNode)
| NotFound
| Failed (e : string).

(** The listener once the read has settled, lines 120-142: a record found
    is restored at the next tick of the editor, nothing found releases
    the lock, and on an error the listener ends there. *)
Definition loaded (o : LoadOutcome) (p : Page) : Page :=
  match o with
  | NotFound =>
      on_vars (fun v =>
                 mkVars (currentCanvasId v) (currentApi v) false (saved v)) p
  | _ => p
  end.

(** The end of the callback given to [runAtNextTick], line 137. *)
Definition restored (p : Page) : Page :=
  on_vars (fun v =>
             mkVars (currentCanvasId v) (currentApi v) false (saved v)) p.

(** The editor's content is now [api]: what the API of the open canvas
    answers from here on. *)
Definition editor_now (api : Api) (p : Page) : Page :=
  on_vars (fun v =>
             mkVars (currentCanvasId v)
                    (match currentApi v with
                     | Some _ => Some api
                     | None => None
                     end)
                    (isLoading v) (saved v)) p.

(** [goBack()], lines 162-165: the reset. *)
Definition goBack_resume (p : Page) : Page :=
  on_vars (fun v => mkVars None None false (saved v)) p.

(** [goBack()], lines 152-156: with a canvas open the save is forced and
    the rest waits for 100 (the caller of [goBack_resume] lets that time
    pass); otherwise the reset follows at once. *)
Definition goBack_begin (p : Page) : Page :=
  match currentApi (vars p) with
  | Some _ =>
      if truthy (currentCanvasId (vars p)) then saveCanvas_flush p
      else goBack_resume p
  | None => goBack_resume p
  end.

Inductive PageEvent :=
| OpenCanvas (id : option string) (generated : string)
| Ready (id : option string) (api : Api)
| Loaded (o : LoadOutcome)
| Restored
| EditorNow (api : Api)
| Onchange
| GoBackBegin
| GoBackResume
| TimePasses (T : Z).

Definition page_step (p : Page) (ev : PageEvent) : Page :=
  match ev with
  | OpenCanvas id generated => openCanvas id generated p
  | Ready id api => ready id api p
  | Loaded o => loaded o p
  | Restored => restored p
  | EditorNow api => editor_now api p
  | Onchange => onchange p
  | GoBackBegin => goBack_begin p
  | GoBackResume => goBack_resume p
  | TimePasses T => Debounce.tick autosave T p
  end.

Definition page_run (evs : list PageEvent) (p : Page) : Page :=
  fold_left page_step evs p.

(** The page when the script has run, at time [t0]. *)
Definition page_init (t0 : Z) : Page :=
  Debounce.init t0 (mkVars None None false []).

(** The events that leave a held lock held. *)
Definition keeps_lock (ev : PageEvent) : Prop :=
  match ev with
  | Loaded (Found _) | Loaded (Failed _) => True
  | EditorNow _ | Onchange | TimePasses _ => True
  | _ => False
  end.

(** A record as the page writes it between the times [t0] and [t]. *)
Definition page_record (t0 t : Z)
  (r : CanvasData.t AppState SerializedNode) : Prop :=
  t0 <= CanvasData.createdAt r <= t /\
  CanvasData.createdAt r <= CanvasData.updatedAt r /\
  CanvasData.name r = "Untitled Canvas"%string /\
  CanvasData.id r <> EmptyString.

(** The page has been running since [t0] or longer, and what it wrote
    it wrote as a page does. *)
Definition stamped (t0 : Z) (p : Page) : Prop :=
  t0 <= clock (loop p) /\
  Forall (page_record t0 (clock (loop p))) (saved (vars p)).
End Page.

Arguments mkApi {AppState SerializedNode}.
Arguments getNodes {AppState SerializedNode}.
Arguments getAppState {AppState SerializedNode}.
Arguments mkVars {AppState SerializedNode}.
Arguments currentCanvasId {AppState SerializedNode}.
Arguments currentApi {AppState SerializedNode}.
Arguments isLoading {AppState SerializedNode}.
Arguments saved {AppState SerializedNode}.
Arguments autosave {AppState SerializedNode}.
Arguments vars {AppState SerializedNode}.
Arguments on_vars {AppState SerializedNode}.
Arguments saveCanvas {AppState SerializedNode}.
Arguments saveCanvas_flush {AppState SerializedNode}.
Arguments onchange {AppState SerializedNode}.
Arguments openCanvas {AppState SerializedNode}.
Arguments ready {AppState SerializedNode}.
Arguments Found {AppState SerializedNode}.
Arguments NotFound {AppState SerializedNode}.
Arguments Failed {AppState SerializedNode}.
Arguments loaded {AppState SerializedNode}.
Arguments restored {AppState SerializedNode}.
Arguments editor_now {AppState SerializedNode}.
Arguments goBack_resume {AppState SerializedNode}.
Arguments goBack_begin {AppState SerializedNode}.
Arguments OpenCanvas {AppState SerializedNode}.
Arguments Ready {AppState SerializedNode}.
Arguments Loaded {AppState SerializedNode}.
Arguments Restored {AppState SerializedNode}.
Arguments EditorNow {AppState SerializedNode}.
Arguments Onchange {AppState SerializedNode}.
Arguments GoBackBegin {AppState SerializedNode}.
Arguments GoBackResume {AppState SerializedNode}.
Arguments TimePasses {AppState SerializedNode}.
Arguments page_step {AppState SerializedNode}.
Arguments page_run {AppState SerializedNode}.
Arguments page_init {AppState SerializedNode}.
Arguments keeps_lock {AppState SerializedNode}.
Arguments page_record {AppState SerializedNode}.
Arguments stamped {AppState SerializedNode}.

End ExamplePage.

(** ** Concrete runs *)

Module Runs.
Import Timers PersistenceManager.
Local Open Scope string_scope.

(** A snapshot with plain numbers for the editor's content. *)
Definition snap (n : nat) : Snapshot nat nat := mkSnapshot n [n].

(** A manager made at time 0 writes canvas "a"; a new canvas is then
    created at time 1000, and [setCanvasId] puts the session back on "a",
    which is written once more. *)
Definition repointed : list (Event nat nat) :=
  [ Does (CallSetCanvasId "a" None); Does (CallUpdateSnapshot (snap 1));
    Does (TimePasses 1000);
    Does (CallCreateNewCanvas None "b"); Does (CallSetCanvasId "a" None);
    Does (CallOnStateChange (snap 2)); Does (TimePasses 2000) ].

(** A session that stays on canvas "a": edits, a forced save, a failed
    write, time passing. *)
Definition one_session : list (Event nat nat) :=
  [ Does (CallOnStateChange (snap 1)); Does (TimePasses 1500);
    Does (CallUpdateSnapshot (snap 2));
    Does CallForceSave; WriteSettled (WriteFailed "quota");
    Does (CallOnStateChange (snap 3)); Does (TimePasses 4000) ].

(** Five changes 50 apart on a new canvas, then two seconds of quiet. *)
Definition five_changes : list (Event nat nat) :=
  [ Does (CallCreateNewCanvas None "c1");
    Does (CallOnStateChange (snap 1)); Does (TimePasses 50);
    Does (CallOnStateChange (snap 2)); Does (TimePasses 100);
    Does (CallOnStateChange (snap 3)); Does (TimePasses 150);
    Does (CallOnStateChange (snap 4)); Does (TimePasses 200);
    Does (CallOnStateChange (snap 5)); Does (TimePasses 2200) ].

(** Three canvases last written at 100, 300 and 200. *)
Definition three : list (CanvasData.t nat nat) :=
  [ CanvasData.mk "x" "one" [] O 1 100;
    CanvasData.mk "y" "two" [] O 2 300;
    CanvasData.mk "z" "three" [] O 3 200 ].

(** An empty canvas with its stamps. *)
Definition canvas (id name : string) (created updated : Z)
  : CanvasData.t nat nat :=
  CanvasData.mk id name [] O created updated.

(** A manager made at time 0 and put on canvas "a". *)
Definition on_a : World nat nat := setCanvasId "a" None (init 0).

(** What the editor of the example page answers. *)
Definition editor (n : nat) : ExamplePage.Api nat nat :=
  ExamplePage.mkApi [n] n.

(** A clock that has moved on by one between the two readings. *)
Definition next_ms (_ : nat) (t : Z) : Z := t + 1.

(** The example page with a new canvas open. *)
Definition open_page : ExamplePage.Page nat nat :=
  ExamplePage.page_run next_ms
    [ ExamplePage.OpenCanvas None "p1"; ExamplePage.Ready None (editor 1) ]
    (ExamplePage.page_init 0).

(** The page is started at time 5000; canvas "a", made at time 10 under
    the name "plan", is opened and restored, the editor notifies a change
    and two seconds pass. *)
Definition reopened : list (ExamplePage.PageEvent nat nat) :=
  [ ExamplePage.OpenCanvas (Some "a") "p3";
    ExamplePage.Ready (Some "a") (editor 1);
    ExamplePage.Loaded (ExamplePage.Found (canvas "a" "plan" 10 20));
    ExamplePage.Restored; ExamplePage.Onchange;
    ExamplePage.TimePasses 7000 ].

(** The example page after the load of canvas "a" has failed. *)
Definition stuck_page : ExamplePage.Page nat nat :=
  ExamplePage.page_run next_ms
    [ ExamplePage.OpenCanvas (Some "a") "p2";
      ExamplePage.Ready (Some "a") (editor 1);
      ExamplePage.Loaded (ExamplePage.Failed "blocked") ]
    (ExamplePage.page_init 0).

(** A manager on canvas "a" whose load has just begun. *)
Definition loading : World nat nat :=
  loadCanvas "a" (setCanvasId "a" None (init 0)).

(** Two loads that overlap: the second is begun before the read of the
    first has settled, which it does at time 0; the clock is then at 80,
    the moment the second read settles. *)
Definition overlapping : World nat nat :=
  run [ Does (CallLoadCanvas "a"); Does (CallLoadCanvas "b");
        ReadSettled NotFound; Does (TimePasses 80) ] (init 0).

(** A function to wrap with [debounce]: it counts its invocations. *)
Definition count (_ : list nat) (_ : Z) (u : nat) : nat := S u.

(** Two calls of the debounced function, 50 apart. *)
Definition two_calls : list (Z * list nat) := [(0, [1%nat]); (50, [2%nat])].

(** In front of the IndexedDB service: the manager is put on canvas "a",
    which no record has, by [setCanvasId]; "a" is written, then a new
    canvas "b", then "a" is loaded again and written once more. *)
Definition put_on_a : list (Backed.SystemEvent nat nat) :=
  [ Backed.Act (CallSetCanvasId "a" (Some "first"));
    Backed.Act (CallOnStateChange (snap 1));
    Backed.Act (TimePasses 1000); Backed.Settle None;
    Backed.Act (CallCreateNewCanvas None "b");
    Backed.Act (CallOnStateChange (snap 2));
    Backed.Act (TimePasses 2000); Backed.Settle None;
    Backed.Act (CallLoadCanvas "a"); Backed.Settle None;
    Backed.Act (TimePasses 2200);
    Backed.Act (CallSetCanvasId "a" None);
    Backed.Act (CallOnStateChange (snap 3));
    Backed.Act (TimePasses 3200); Backed.Settle None ].

(** Two canvases last written at the same time. *)
Definition tied : list (CanvasData.t nat nat) :=
  [ CanvasData.mk "a" "first" [] O 10 100;
    CanvasData.mk "b" "second" [] O 20 100 ].
End Runs.

(** * Properties *)

(** ** Timers *)

Section TimerFacts.
Import Timers.
Context {Cb S : Type}.
Variable run_cb : Cb -> Z -> S -> S.

(** A delay that fits the 32 bits is the time the timer waits. *)
Lemma delay_in_range (ms : Z) : 0 <= ms <= 2147483647 -> delay ms = ms.
Proof.
  intros H. unfold delay, int32.
  rewrite Z.mod_small by lia. lia.
Qed.

Lemma pop_next_perm (q : list (Timer Cb)) tm r :
  pop_next q = Some (tm, r) -> Permutation q (tm :: r).
Proof.
  revert tm r. induction q as [|x q IH]; simpl; intros tm r H; [discriminate|].
  destruct (pop_next q) as [[y r']|] eqn:E.
  - pose proof (IH _ _ eq_refl) as Hq.
    destruct (due x <=? due y); inversion H; subst; [reflexivity|].
    rewrite Hq. apply perm_swap.
  - inversion H; subst. reflexivity.
Qed.

Lemma pop_next_least (q : list (Timer Cb)) tm r :
  pop_next q = Some (tm, r) -> Forall (fun x => due tm <= due x) q.
Proof.
  revert tm r. induction q as [|x q IH]; simpl; intros tm r H; [constructor|].
  destruct (pop_next q) as [[y r']|] eqn:E.
  - pose proof (IH _ _ eq_refl) as Hq.
    destruct (due x <=? due y) eqn:L; inversion H; subst; constructor.
    + lia.
    + apply Z.leb_le in L. eapply Forall_impl; [|exact Hq].
      simpl; intros; lia.
    + apply Z.leb_gt in L. lia.
    + exact Hq.
  - inversion H; subst. destruct r as [|z r].
    + constructor; [lia|constructor].
    + simpl in E. destruct (pop_next r) as [[? ?]|];
        [destruct (_ <=? _)|]; discriminate.
Qed.

Lemma pop_next_none (q : list (Timer Cb)) : pop_next q = None -> q = [].
Proof.
  destruct q as [|x q]; simpl; [reflexivity|].
  destruct (pop_next q) as [[? ?]|]; [destruct (_ <=? _)|]; discriminate.
Qed.

Lemma pop_next_In (q : list (Timer Cb)) tm r :
  pop_next q = Some (tm, r) -> In tm q /\ incl r q.
Proof.
  intros H. apply pop_next_perm in H. split.
  - eapply Permutation_in; [symmetry; exact H|left; reflexivity].
  - intros x Hx. eapply Permutation_in; [symmetry; exact H|right; exact Hx].
Qed.

Lemma pop_next_length (q : list (Timer Cb)) tm r :
  pop_next q = Some (tm, r) -> List.length q = Datatypes.S (List.length r).
Proof.
  intros H. apply pop_next_perm in H. apply Permutation_length in H.
  exact H.
Qed.

(** A property kept by every single firing is kept by the passing of
    time. *)
Lemma fire_invariant (P : Machine Cb S -> Prop) T :
  (forall m tm r,
     P m -> pop_next (queue (loop m)) = Some (tm, r) -> due tm <= T ->
     P (fire_one run_cb tm r m)) ->
  forall n m, P m -> P (fire run_cb n T m).
Proof.
  intros Hstep. induction n as [|n IH]; simpl; intros m H; [exact H|].
  destruct (pop_next (queue (loop m))) as [[tm r]|] eqn:E; [|exact H].
  destruct (due tm <=? T) eqn:L; [|exact H].
  apply IH, Hstep; auto. apply Z.leb_le, L.
Qed.

(** Firing only removes timers. *)
Lemma fire_queue (P : Timer Cb -> Prop) n T (m : Machine Cb S) :
  Forall P (queue (loop m)) -> Forall P (queue (loop (fire run_cb n T m))).
Proof.
  apply (fire_invariant (fun m => Forall P (queue (loop m)))).
  intros m0 tm r H E _. simpl. apply pop_next_In in E.
  rewrite Forall_forall in *. intros x Hx. apply H, E, Hx.
Qed.

(** What the callbacks leave alone, the passing of time leaves alone. *)
Lemma fire_app_inv {V : Type} (proj : S -> V) n T (m : Machine Cb S) :
  (forall c now s, proj (run_cb c now s) = proj s) ->
  proj (app (fire run_cb n T m)) = proj (app m).
Proof.
  intros Hcb.
  apply (fire_invariant (fun m' => proj (app m') = proj (app m)));
    [|reflexivity].
  intros m0 tm r H _ _. simpl. rewrite Hcb. exact H.
Qed.

Lemma fire_nothing_due n T (m : Machine Cb S) :
  Forall (fun x => T < due x) (queue (loop m)) -> fire run_cb n T m = m.
Proof.
  intros H. destruct n as [|n]; simpl; [reflexivity|].
  destruct (pop_next (queue (loop m))) as [[tm r]|] eqn:E; [|reflexivity].
  apply pop_next_In in E. destruct E as [E _].
  rewrite Forall_forall in H. specialize (H _ E).
  destruct (due tm <=? T) eqn:L; [apply Z.leb_le in L; lia|reflexivity].
Qed.

(** With the queue's length as fuel, nothing due is left. *)
Lemma fire_all_due n T (m : Machine Cb S) :
  (List.length (queue (loop m)) <= n)%nat ->
  Forall (fun x => T < due x) (queue (loop (fire run_cb n T m))).
Proof.
  revert m. induction n as [|n IH]; intros m Hn.
  - simpl. destruct (queue (loop m)); [constructor|simpl in Hn; lia].
  - simpl. destruct (pop_next (queue (loop m))) as [[tm r]|] eqn:E.
    + destruct (due tm <=? T) eqn:L.
      * apply IH. simpl. apply pop_next_length in E. lia.
      * apply Z.leb_gt in L. apply pop_next_least in E.
        eapply Forall_impl; [|exact E]. simpl; intros; lia.
    + apply pop_next_none in E. rewrite E. constructor.
Qed.

Lemma fire_clock_mono n T (m : Machine Cb S) :
  clock (loop m) <= clock (loop (fire run_cb n T m)).
Proof.
  apply (fire_invariant (fun m' => clock (loop m) <= clock (loop m')));
    [|lia].
  intros m0 tm r H _ _. simpl. lia.
Qed.

(** Firing up to [T] does not take the clock beyond [T]. *)
Lemma fire_clock_le n T (m : Machine Cb S) :
  clock (loop (fire run_cb n T m)) <= Z.max (clock (loop m)) T.
Proof.
  apply (fire_invariant
           (fun m' => clock (loop m') <= Z.max (clock (loop m)) T)); [|lia].
  intros m0 tm r H _ Hd. simpl. lia.
Qed.

Lemma advance_clock_mono T (m : Machine Cb S) :
  clock (loop m) <= clock (loop (advance run_cb T m)).
Proof.
  unfold advance. simpl.
  pose proof (fire_clock_mono (List.length (queue (loop m))) T m). lia.
Qed.
End TimerFacts.

(** ** The debounce helper *)

Section DebounceFacts.
Import Timers Debounce.
Context {A U : Type}.
Variable fn : list A -> Z -> U -> U.
Variable ms : Z.

Lemma clear_tracked (m : Coordinator A U) :
  tracked m -> queue (clearTimeout (timeoutId (app m)) (loop m)) = [].
Proof.
  unfold tracked, clearTimeout. destruct (timeoutId (app m)) as [i|].
  - simpl. induction 1 as [|tm q H _ IH]; simpl; [reflexivity|].
    inversion H; subst. rewrite Nat.eqb_refl. simpl. exact IH.
  - intros H. destruct (queue (loop m)); [reflexivity|].
    inversion H; discriminate.
Qed.

Lemma armed_tracked (m : Coordinator A U) d args : armed m d args -> tracked m.
Proof.
  intros (i & Hq & Hi). unfold tracked. rewrite Hq, Hi.
  constructor; [reflexivity|constructor].
Qed.

Lemma debounced_arms (m : Coordinator A U) args :
  0 <= ms <= 2147483647 -> tracked m ->
  armed (debounced ms args m) (clock (loop m) + ms) args /\
  clock (loop (debounced ms args m)) = clock (loop m) /\
  invoked (app (debounced ms args m)) = invoked (app m) /\
  ustate (app (debounced ms args m)) = ustate (app m).
Proof.
  intros Hms Ht. pose proof (clear_tracked m Ht) as Hq.
  unfold debounced, schedule, setTimeout. simpl.
  split; [|split; [|split; reflexivity]].
  - exists (fresh (clearTimeout (timeoutId (app m)) (loop m))). simpl.
    rewrite Hq. simpl. rewrite delay_in_range by lia.
    destruct (timeoutId (app m)); simpl; auto.
  - destruct (timeoutId (app m)); reflexivity.
Qed.

(** Before the timer is due nothing happens but the clock moving. *)
Lemma tick_early (m : Coordinator A U) d args T :
  armed m d args -> T < d ->
  armed (Debounce.tick fn T m) d args /\
  clock (loop (Debounce.tick fn T m)) = Z.max (clock (loop m)) T /\
  app (Debounce.tick fn T m) = app m.
Proof.
  intros (i & Hq & Hi) HT. unfold Debounce.tick, advance.
  rewrite fire_nothing_due.
  - simpl. repeat split; auto. exists i. simpl. auto.
  - rewrite Hq. constructor; [simpl; lia|constructor].
Qed.

(** Once it is due the timer fires, at its due time, and none is left. *)
Lemma tick_late (m : Coordinator A U) d args T :
  armed m d args -> clock (loop m) <= d -> d <= T ->
  queue (loop (Debounce.tick fn T m)) = [] /\
  app (Debounce.tick fn T m) = call_fn fn args d (app m).
Proof.
  intros (i & Hq & Hi) Hc HT. unfold Debounce.tick, advance.
  rewrite Hq. simpl. rewrite Hq. simpl.
  destruct (d <=? T) eqn:L; [|apply Z.leb_gt in L; lia].
  simpl. rewrite Z.max_r by lia. auto.
Qed.

Lemma last_cons {X : Type} (l : list X) (x d : X) :
  last (x :: l) d = last l x.
Proof.
  revert x d. induction l as [|y l IH]; intros x d; [reflexivity|].
  change (last (x :: y :: l) d) with (last (y :: l) d).
  rewrite !IH. reflexivity.
Qed.

Lemma calls_burst (cs : list (Z * list A)) :
  forall (m : Coordinator A U) t args,
    0 <= ms <= 2147483647 ->
    armed m (t + ms) args -> clock (loop m) = t ->
    burst ms t (map fst cs) ->
    let lc := last cs (t, args) in
    let m' := calls fn ms cs m in
    armed m' (fst lc + ms) (snd lc) /\ clock (loop m') = fst lc /\
    invoked (app m') = invoked (app m) /\ ustate (app m') = ustate (app m).
Proof.
  induction cs as [|[t' args'] cs IH]; intros m t args Hms Ha Hc Hb.
  - simpl. auto.
  - simpl in Hb. destruct Hb as [Ht Hb].
    destruct (tick_early m (t + ms) args t' Ha) as (Ha1 & Hc1 & Hp1); [lia|].
    destruct (debounced_arms (Debounce.tick fn t' m) args' Hms
                (armed_tracked _ _ _ Ha1)) as (Ha2 & Hc2 & Hi2 & Hu2).
    assert (Hc3 : clock (loop (call_at fn ms (t', args') m)) = t').
    { unfold call_at; cbn [fst snd]. rewrite Hc2, Hc1. lia. }
    assert (Ha3 : armed (call_at fn ms (t', args') m) (t' + ms) args').
    { unfold call_at; cbn [fst snd].
      replace (t' + ms) with (clock (loop (Debounce.tick fn t' m)) + ms)
        by (rewrite Hc1; lia).
      exact Ha2. }
    specialize (IH (call_at fn ms (t', args') m) t' args' Hms Ha3 Hc3 Hb).
    rewrite last_cons.
    cbn zeta in IH |- *.
      change (calls fn ms ((t', args') :: cs) m)
        with (calls fn ms cs (call_at fn ms (t', args') m)).
      destruct IH as (I1 & I2 & I3 & I4).
      repeat split; auto.
      * rewrite I3. unfold call_at; cbn [fst snd]. rewrite Hi2, Hp1.
        reflexivity.
      * rewrite I4. unfold call_at; cbn [fst snd]. rewrite Hu2, Hp1.
        reflexivity.
Qed.
Lemma tick_idle (m : Coordinator A U) T :
  queue (loop m) = [] ->
  queue (loop (Debounce.tick fn T m)) = [] /\
  clock (loop (Debounce.tick fn T m)) = Z.max (clock (loop m)) T /\
  app (Debounce.tick fn T m) = app m.
Proof.
  intros Hq. unfold Debounce.tick, advance. rewrite Hq. simpl. auto.
Qed.

Lemma debounced_tracked (m : Coordinator A U) args :
  tracked m -> tracked (debounced ms args m).
Proof.
  intros Ht. pose proof (clear_tracked m Ht) as Hq.
  unfold tracked, debounced, schedule, setTimeout. simpl.
  rewrite Hq. simpl. constructor; [reflexivity|constructor].
Qed.

Lemma tick_tracked (m : Coordinator A U) T :
  tracked m -> tracked (Debounce.tick fn T m).
Proof.
  unfold tracked, Debounce.tick, advance. simpl. intros Ht.
  rewrite (fire_app_inv (call_fn fn) timeoutId) by reflexivity.
  apply fire_queue. exact Ht.
Qed.

Lemma reachable_tracked (m : Coordinator A U) :
  reachable fn ms m -> tracked m.
Proof.
  induction 1 as [t0 u|m args _ IH|m _ IH|m T _ IH].
  - constructor.
  - apply debounced_tracked, IH.
  - unfold tracked, flush, cancel. simpl. rewrite (clear_tracked m IH).
    constructor.
  - apply tick_tracked, IH.
Qed.

(** C1, as the code has it: with a window [ms] that the timer holds as
    it is given, from 0 to 2147483647, a burst of N >= 1 calls of the
    debounced function, each strictly less than [ms] after the one
    before, makes [fn] run exactly once: with [m0] the state at the moment
    of the first call, nothing has been added to the invocations of [m0]
    before [ms] has passed since the last call, and from then on exactly
    one has, made at that very time with the arguments of the last call;
    no timer is left. *)
Theorem debounce_trailing_edge
  (m : Coordinator A U) (c : Z * list A) (cs : list (Z * list A)) :
  0 <= ms <= 2147483647 ->
  reachable fn ms m ->
  clock (loop m) <= fst c ->
  burst ms (fst c) (map fst cs) ->
  let m0 := Debounce.tick fn (fst c) m in
  let lc := last cs c in
  let m' := calls fn ms (c :: cs) m in
  forall T,
    (T < fst lc + ms ->
     invoked (app (Debounce.tick fn T m')) = invoked (app m0)) /\
    (fst lc + ms <= T ->
     invoked (app (Debounce.tick fn T m'))
       = invoked (app m0) ++ [(fst lc + ms, snd lc)] /\
     ustate (app (Debounce.tick fn T m'))
       = fn (snd lc) (fst lc + ms) (ustate (app m0)) /\
     queue (loop (Debounce.tick fn T m')) = []).
Proof.
  intros Hms Hr Hc Hb m0 lc m' T. destruct c as [t args].
  cbn [fst snd] in *.
  assert (Ht0 : tracked m0) by (apply tick_tracked, reachable_tracked, Hr).
  assert (Hc0 : clock (loop m0) = t).
  { unfold m0, Debounce.tick, advance. simpl.
    pose proof (fire_clock_mono (call_fn fn)
                  (List.length (queue (loop m))) t m) as Hm.
    pose proof (fire_clock_le (call_fn fn)
                  (List.length (queue (loop m))) t m) as Hle.
    lia. }
  destruct (debounced_arms m0 args Hms Ht0) as (Ha1 & Hc1 & Hi1 & Hu1).
  rewrite Hc0 in Ha1, Hc1.
  destruct (calls_burst cs (call_at fn ms (t, args) m) t args Hms Ha1 Hc1 Hb)
    as (Ha & Hcl & Hi & Hu).
  fold lc in Ha, Hcl.
  change (calls fn ms cs (call_at fn ms (t, args) m)) with m' in *.
  assert (Hi' : invoked (app m') = invoked (app m0)).
  { rewrite Hi. unfold call_at; cbn [fst snd]. exact Hi1. }
  assert (Hu' : ustate (app m') = ustate (app m0)).
  { rewrite Hu. unfold call_at; cbn [fst snd]. exact Hu1. }
  split; intros HT.
  - destruct (tick_early m' _ _ T Ha HT) as (_ & _ & Hp). rewrite Hp.
    exact Hi'.
  - destruct (tick_late m' _ _ T Ha) as (Hq' & Hp); [lia|exact HT|].
    rewrite Hp. simpl. rewrite Hi', Hu'. auto.
Qed.

(** C4: [flush()] cancels the pending timer and runs [fn] at once, without
    arguments, whether or not a call was pending: in every state the
    helper can be in, one invocation is added at the current time, no
    timer is left, and none fires later. *)
Theorem flush_always_invokes (m : Coordinator A U) :
  reachable fn ms m ->
  let m' := flush fn m in
  clock (loop m') = clock (loop m) /\
  queue (loop m') = [] /\
  invoked (app m') = invoked (app m) ++ [(clock (loop m), [])] /\
  ustate (app m') = fn [] (clock (loop m)) (ustate (app m)) /\
  forall T, invoked (app (Debounce.tick fn T m')) = invoked (app m').
Proof.
  intros Hr m'. pose proof (reachable_tracked m Hr) as Ht.
  pose proof (clear_tracked m Ht) as Hq.
  assert (Hc : clock (clearTimeout (timeoutId (app m)) (loop m))
               = clock (loop m))
    by (destruct (timeoutId (app m)); reflexivity).
  subst m'. unfold flush, cancel. simpl. rewrite Hc, Hq.
  split; [reflexivity|]. split; [reflexivity|]. split; [reflexivity|].
  split; [reflexivity|].
  intros T. unfold Debounce.tick, advance. cbn [loop app]. reflexivity.
Qed.
End DebounceFacts.

(** Three calls at times 0, 400 and 900 with a window of 1000: one
    invocation, at 1900, with the arguments of the third call. *)
Lemma debounce_trailing_edge_witness :
  let fn := fun (_ : list nat) (_ : Z) (u : nat) => S u in
  let m' := Debounce.calls fn 1000 [(0, [1%nat]); (400, [2%nat]); (900, [3%nat])]
              (Debounce.init 0 O) in
  Debounce.invoked (Timers.app (Debounce.tick fn 1500 m')) = [] /\
  Debounce.invoked (Timers.app (Debounce.tick fn 5000 m')) = [(1900, [3%nat])] /\
  Debounce.ustate (Timers.app (Debounce.tick fn 5000 m')) = 1%nat.
Proof.
  intros fn m'.
  assert (H0 : 0 <= 1000 <= 2147483647) by lia.
  assert (H1 : Debounce.reachable fn 1000 (Debounce.init 0 O))
    by constructor.
  assert (H2 : Timers.clock (Timers.loop (Debounce.init (A:=nat) 0 O))
               <= fst (0, [1%nat])) by (simpl; lia).
  assert (H3 : Debounce.burst 1000 (fst (0, [1%nat]))
                 (map fst [(400, [2%nat]); (900, [3%nat])]))
    by (simpl; lia).
  pose proof (debounce_trailing_edge fn 1000 (Debounce.init 0 O)
                (0, [1%nat]) [(400, [2%nat]); (900, [3%nat])] H0 H1 H2 H3)
    as H.
  cbn zeta in H.
  destruct (H 1500) as [Hearly _]. destruct (H 5000) as [_ Hlate].
  split; [apply Hearly; simpl; lia|].
  destruct Hlate as (Hi & Hu & _); [simpl; lia|].
  split; [exact Hi|exact Hu].
Defined.

(** A flush right after the helper was created, nothing pending. *)
Lemma flush_always_invokes_witness :
  let fn := fun (_ : list nat) (_ : Z) (u : nat) => S u in
  Debounce.invoked (Timers.app (Debounce.flush fn (Debounce.init 7 O)))
  = [(7, [])].
Proof.
  intros fn.
  destruct (flush_always_invokes fn 1000 (Debounce.init 7 O)
              (Debounce.reach_init nat nat fn 1000 7 O))
    as (_ & _ & H & _).
  exact H.
Defined.

(** ** The persistence manager: single steps *)

Section ManagerSteps.
Import Timers PersistenceManager.
Context {AppState SerializedNode : Type}.
Local Abbreviation World := (World AppState SerializedNode).
Local Abbreviation State := (State AppState SerializedNode).
Local Abbreviation Snapshot := (Snapshot AppState SerializedNode).

(** C2: while [isLoading] is set, [onStateChange(snapshot)] changes
    nothing at all: not the pending snapshot, not the helper's timer, not
    the records written, now or in anything that follows. *)
Theorem onStateChange_noop_while_loading (snapshot : Snapshot) (w : World) :
  isLoading (app w) = true ->
  onStateChange snapshot w = w /\
  forall snapshots evs,
    run evs (fold_left (fun w s => onStateChange s w) snapshots w)
    = run evs w.
Proof.
  intros H.
  assert (E : forall s, onStateChange s w = w)
    by (intros s; unfold onStateChange; rewrite H; reflexivity).
  split; [apply E|].
  intros snapshots evs. f_equal.
  induction snapshots as [|s ss IH]; simpl; [reflexivity|].
  rewrite E. exact IH.
Qed.

Lemma save_guard_false (s : State) :
  save_guard s = false ->
  exists i snap,
    canvasId s = Some i /\ i <> EmptyString /\
    currentSnapshot s = Some snap /\ isLoading s = false.
Proof.
  unfold save_guard. intros H.
  apply orb_false_elim in H. destruct H as [H Hl].
  apply orb_false_elim in H. destruct H as [Hi Hs].
  destruct (canvasId s) as [[|c i]|]; simpl in Hi; try discriminate.
  destruct (currentSnapshot s) as [snap|]; try discriminate.
  exists (String c i), snap. repeat split; auto. discriminate.
Qed.

(** What [save] does, case by case. *)
Lemma save_cases (now : Z) (s : State) :
  (save_guard s = true /\ save now s = s) \/
  (exists i snap,
     canvasId s = Some i /\ i <> EmptyString /\
     currentSnapshot s = Some snap /\ isLoading s = false /\
     save now s =
       set_written
         (written s ++ [CanvasData.mk i (canvasName s) (nodes snap)
                          (appState snap) (createdAt s) now]) s).
Proof.
  unfold save. destruct (save_guard s) eqn:G; [left; auto|right].
  destruct (save_guard_false s G) as (i & snap & Hi & Hne & Hs & Hl).
  exists i, snap. rewrite Hi, Hs. auto 6.
Qed.

(** C3: [save] hands a record to the storage only when a canvas id is
    set, a snapshot is pending and no load is going on; when one of the
    three is missing it returns with everything as it was. *)
Theorem save_only_when_ready (now : Z) (s : State) :
  (written (save now s) <> written s ->
   (exists i, canvasId s = Some i) /\
   (exists snap, currentSnapshot s = Some snap) /\
   isLoading s = false) /\
  (canvasId s = None \/ currentSnapshot s = None \/ isLoading s = true ->
   save now s = s).
Proof.
  destruct (save_cases now s) as [[G E]|(i & snap & Hi & Hne & Hs & Hl & E)].
  - split; [rewrite E; intros H; congruence|auto].
  - split.
    + intros _. eauto.
    + intros [H|[H|H]]; congruence.
Qed.

(** C5: when the read of [loadCanvas(id)] fails, the caller's promise is
    rejected with that error, and neither the call nor the failure touches
    the canvas id, the name, [createdAt] or the pending snapshot. *)
Theorem loadCanvas_failure_keeps_session (id : string) (e : Error) :
  (forall w : World, session (app (loadCanvas id w)) = session (app w)) /\
  (forall w : World,
     snd (loadCanvas_settled (ReadFailed e) w) = Rejected e /\
     session (app (fst (loadCanvas_settled (ReadFailed e) w)))
     = session (app w)) /\
  (forall w : World,
     let r := loadCanvas_settled (ReadFailed e) (loadCanvas id w) in
     snd r = Rejected e /\ session (app (fst r)) = session (app w)).
Proof.
  repeat split.
Qed.

(** [save] touches nothing but the list of records written. *)
Lemma save_frame (now : Z) (s : State) :
  session (save now s) = session s /\
  isLoading (save now s) = isLoading s /\
  onSaveError (save now s) = onSaveError s /\
  timeoutId (save now s) = timeoutId s /\
  console (save now s) = console s /\
  reported (save now s) = reported s /\
  unhandled (save now s) = unhandled s.
Proof.
  destruct (save_cases now s) as [[_ E]|(i & snap & _ & _ & _ & _ & E)];
    rewrite E; repeat split.
Qed.

Lemma run_cb_isLoading (c : Callback) (now : Z) (s : State) :
  isLoading (run_cb c now s) = false \/
  (c <> ReleaseLock /\ isLoading (run_cb c now s) = isLoading s).
Proof.
  destruct c; simpl.
  - right. split; [discriminate|apply save_frame].
  - left. reflexivity.
  - right. split; [discriminate|reflexivity].
Qed.

Lemma run_cb_keeps_unlocked (c : Callback) (now : Z) (s : State) :
  isLoading s = false -> isLoading (run_cb c now s) = false.
Proof.
  intros H. destruct (run_cb_isLoading c now s) as [E|[_ E]]; congruence.
Qed.

(** Once the release timer is due, the lock is open. *)
Lemma tick_releases (T : Z) (w : World) :
  Exists (fun tm => cb tm = ReleaseLock /\ due tm <= T) (queue (loop w)) ->
  isLoading (app (tick T w)) = false.
Proof.
  intros Hex.
  pose (Q := fun m : World =>
               isLoading (app m) = false \/
               Exists (fun tm => cb tm = ReleaseLock /\ due tm <= T)
                      (queue (loop m))).
  assert (HQ : Q (fire run_cb (List.length (queue (loop w))) T w)).
  { apply (fire_invariant run_cb Q); [|right; exact Hex].
    intros m tm r [Hm|Hm] E _.
    - left. simpl. apply run_cb_keeps_unlocked, Hm.
    - apply pop_next_perm in E.
      apply (Permutation_Exists E) in Hm. apply Exists_cons in Hm.
      destruct Hm as [[Hcb _]|Hm]; [left|right; exact Hm].
      simpl. rewrite Hcb. reflexivity. }
  pose proof (fire_all_due run_cb (List.length (queue (loop w))) T w
                (Nat.le_refl _)) as Hdue.
  unfold tick, advance. simpl. destruct HQ as [HQ|HQ]; [exact HQ|].
  exfalso. rewrite Forall_forall in Hdue. rewrite Exists_exists in HQ.
  destruct HQ as (tm & Hin & _ & Hd). specialize (Hdue tm Hin). lia.
Qed.

(** Until a release timer is due, the lock stays as it is. *)
Lemma tick_keeps_lock (T : Z) (w : World) :
  Forall (fun tm => cb tm = ReleaseLock -> T < due tm) (queue (loop w)) ->
  isLoading (app (tick T w)) = isLoading (app w).
Proof.
  intros Hall.
  pose (R := fun m : World =>
               isLoading (app m) = isLoading (app w) /\
               Forall (fun tm => cb tm = ReleaseLock -> T < due tm)
                      (queue (loop m))).
  assert (HR : R (fire run_cb (List.length (queue (loop w))) T w)).
  { apply (fire_invariant run_cb R); [|split; [reflexivity|exact Hall]].
    intros m tm r [Hm Hq] E Hd.
    apply pop_next_In in E. destruct E as [Hin Hr].
    rewrite Forall_forall in Hq. split.
    - simpl. destruct (run_cb_isLoading (cb tm)
                         (Z.max (clock (loop m)) (due tm)) (app m))
        as [Hf|[_ Hk]]; [|congruence].
      destruct (cb tm) eqn:Hc; simpl in *;
        try (rewrite <- Hm; apply save_frame); try congruence.
      specialize (Hq tm Hin Hc). lia.
    - simpl. rewrite Forall_forall. intros x Hx. apply Hq, Hr, Hx. }
  unfold tick, advance. simpl. apply HR.
Qed.

End ManagerSteps.

(** ** The persistence manager: sequences of events *)

Section ManagerTraces.
Import Timers PersistenceManager.
Context {AppState SerializedNode : Type}.
Local Abbreviation World := (World AppState SerializedNode).
Local Abbreviation State := (State AppState SerializedNode).
Local Abbreviation Event := (Event AppState SerializedNode).

Ltac unfold_ops :=
  unfold step, act, setCanvasId, setErrorHandler, updateSnapshot,
    onStateChange,
    debouncedSave, loadCanvas, loadCanvas_settled, createNewCanvas,
    forceSave, release_later, on_app, Debounce.schedule, Debounce.cancel,
    setTimeout in *.

(** What [save] and the release of the lock keep, the passing of time
    keeps. *)
Lemma tick_state_invariant (P : State -> Prop) :
  (forall now s, P s -> P (save now s)) ->
  (forall s, P s -> P (set_isLoading false s)) ->
  forall T (w : World), P (app w) -> P (app (tick T w)).
Proof.
  intros Hsave Hrel T w H. unfold tick, advance. simpl.
  apply (fire_invariant run_cb (fun m => P (app m))); [|exact H].
  intros m tm r Hm _ _. simpl. destruct (cb tm); simpl; auto.
Qed.

Lemma clearTimeout_clock (id : option nat) (l : Loop Callback) :
  clock (clearTimeout id l) = clock l.
Proof. destruct id; reflexivity. Qed.

Lemma step_quiet (w : World) (ev : Event) :
  quiet (app w) -> registers_returning ev -> quiet (app (step w ev)).
Proof.
  unfold quiet, handler_returns. intros [Hh Hu] Hev.
  destruct ev as [[id name|h|s|s|id|name g| |T]|o|o].
  - unfold_ops. destruct name as [n|]; [destruct (truthy (Some n))|];
      simpl; auto.
  - unfold_ops. simpl. auto.
  - unfold_ops. destruct (isLoading (app w)); [auto|].
    destruct (truthy (canvasId (app w))); simpl; auto.
  - unfold_ops. simpl. destruct (isLoading (app w)); [simpl; auto|].
    destruct (truthy (canvasId (app w))); simpl; auto.
  - unfold_ops. simpl. auto.
  - unfold_ops. simpl. auto.
  - unfold_ops. simpl.
    destruct (save_frame (clock (clearTimeout (timeoutId (app w)) (loop w)))
                (app w)) as (_ & _ & E1 & _ & _ & _ & E2).
    rewrite E1, E2. auto.
  - simpl. apply (tick_state_invariant
                    (fun s => match onSaveError s with
                              | Some h => returns_normally h
                              | None => True
                              end /\ unhandled s = [])); auto.
    intros now s [H1 H2].
    destruct (save_frame now s) as (_ & _ & E1 & _ & _ & _ & E2).
    rewrite E1, E2. auto.
  - unfold_ops. destruct o; simpl; auto.
  - unfold_ops. simpl. destruct (app w) as [ci cn ca il [h|] cs ti wr co re un];
      destruct o as [|e]; simpl in *; auto.
    rewrite (Hh e). simpl. auto.
Qed.

Lemma run_quiet (evs : list Event) :
  forall w : World,
    quiet (app w) -> Forall registers_returning evs ->
    quiet (app (run evs w)).
Proof.
  induction evs as [|ev evs IH]; intros w Hq Hall; [exact Hq|].
  inversion Hall; subst. simpl. apply IH; [apply step_quiet|]; assumption.
Qed.

(** C7: when the write fails, the continuation of [save] touches neither
    the session nor the records written; it gives the error to the handler
    if one is registered and drops it otherwise.  [onStateChange] itself
    reports and raises nothing; and with handlers that return, no error
    escapes, whatever the calls, the outcomes of the storage and the
    passing of time. *)
Theorem save_failure_reported_not_thrown (e : Error) (s : State) :
  let s' := save_settled (WriteFailed e) s in
  session s' = session s /\ written s' = written s /\
  (forall handler,
     onSaveError s = Some handler -> reported s' = reported s ++ [e]) /\
  (onSaveError s = None ->
   reported s' = reported s /\ unhandled s' = unhandled s) /\
  (handler_returns s -> unhandled s' = unhandled s) /\
  ((forall snapshot (w : World),
      reported (app (onStateChange snapshot w)) = reported (app w) /\
      unhandled (app (onStateChange snapshot w)) = unhandled (app w)) /\
   (forall t0 (evs : list Event),
      Forall registers_returning evs ->
      unhandled (app (run evs (init t0))) = [])).
Proof.
  intros s'.
  assert (Hrun : (forall snapshot (w : World),
                    reported (app (onStateChange snapshot w))
                    = reported (app w) /\
                    unhandled (app (onStateChange snapshot w))
                    = unhandled (app w)) /\
                 (forall t0 (evs : list Event),
                    Forall registers_returning evs ->
                    unhandled (app (run evs (init t0))) = [])).
  { split.
    - intros snapshot w. unfold_ops.
      destruct (isLoading (app w)); [auto|].
      destruct (truthy (canvasId (app w))); auto.
    - intros t0 evs Hall. apply (run_quiet evs (init t0)); [|exact Hall].
      split; [exact I|reflexivity]. }
  subst s'. unfold handler_returns.
  destruct s as [ci cn ca il [h|] cs ti wr co re un]; simpl.
  - destruct (h e) as [thrown|] eqn:Hhe; simpl;
      (split; [reflexivity|]); (split; [reflexivity|]);
      (split; [intros; reflexivity|]); (split; [discriminate|]);
      (split; [|exact Hrun]); intros Hh.
    + rewrite Hh in Hhe. discriminate.
    + reflexivity.
  - split; [reflexivity|]. split; [reflexivity|].
    split; [discriminate|]. split; [intros; split; reflexivity|].
    split; [intros; reflexivity|exact Hrun].
Qed.

Lemma StronglySorted_snoc {X : Type} (R : X -> X -> Prop) (l : list X) y :
  StronglySorted R l -> Forall (fun x => R x y) l ->
  StronglySorted R (l ++ [y]).
Proof.
  induction 1 as [|x l Hs IH Hx]; intros Hy; simpl.
  - constructor; constructor.
  - inversion Hy; subst. constructor; [apply IH; assumption|].
    apply Forall_app. split; [exact Hx|constructor; [assumption|constructor]].
Qed.

(** A record written at a time not before the clock keeps the order. *)
Lemma save_in_order (now c : Z) (s : State) :
  StronglySorted updatedAt_le (written s) ->
  Forall (fun r => CanvasData.updatedAt r <= c) (written s) ->
  c <= now ->
  StronglySorted updatedAt_le (written (save now s)) /\
  Forall (fun r => CanvasData.updatedAt r <= now) (written (save now s)).
Proof.
  intros Hs Hc Hn.
  assert (Hc' : Forall (fun r => CanvasData.updatedAt r <= now) (written s))
    by (eapply Forall_impl; [|exact Hc]; simpl; intros; lia).
  destruct (save_cases now s) as [[_ E]|(i & snap & _ & _ & _ & _ & E)];
    rewrite E; [auto|]. simpl. split.
  - apply StronglySorted_snoc; [exact Hs|]. exact Hc'.
  - apply Forall_app. split; [exact Hc'|].
    constructor; [simpl; lia|constructor].
Qed.

Lemma tick_in_order (T : Z) (w : World) :
  writes_in_order w -> writes_in_order (tick T w).
Proof.
  intros H. unfold tick, advance.
  pose proof (fire_invariant (run_cb (AppState:=AppState)
                                     (SerializedNode:=SerializedNode))
                writes_in_order T) as Hf.
  assert (Hw : writes_in_order
                 (fire run_cb (List.length (queue (loop w))) T w)).
  { apply Hf; [|exact H]. clear. intros m tm r [Hs Hc] _ _.
    unfold writes_in_order, fire_one. simpl.
    destruct (cb tm); simpl.
    - apply (save_in_order _ (clock (loop m))); auto. lia.
    - split; [exact Hs|]. eapply Forall_impl; [|exact Hc].
      simpl; intros; lia.
    - split; [exact Hs|]. eapply Forall_impl; [|exact Hc].
      simpl; intros; lia. }
  destruct Hw as [Hs Hc]. split; simpl; [exact Hs|].
  eapply Forall_impl; [|exact Hc]. simpl; intros; lia.
Qed.

Lemma step_in_order (w : World) (ev : Event) :
  writes_in_order w -> writes_in_order (step w ev).
Proof.
  intros H. destruct ev as [[id name|h|s|s|id|name g| |T]|o|o];
    try (apply tick_in_order; exact H); unfold writes_in_order in *.
  - unfold_ops. destruct name as [n|]; [destruct (truthy (Some n))|];
      simpl; auto.
  - unfold_ops. simpl. auto.
  - unfold_ops. destruct (isLoading (app w)); [auto|].
    destruct (truthy (canvasId (app w))); simpl; auto.
    rewrite clearTimeout_clock. exact H.
  - unfold_ops. simpl. destruct (isLoading (app w)); [simpl; auto|].
    destruct (truthy (canvasId (app w))); simpl; auto.
    rewrite clearTimeout_clock. exact H.
  - unfold_ops. simpl. auto.
  - unfold_ops. simpl. auto.
  - unfold_ops. simpl. rewrite clearTimeout_clock.
    destruct H as [Hs Hc]. apply (save_in_order _ (clock (loop w))); auto.
    lia.
  - unfold_ops. destruct o; simpl; auto.
  - unfold_ops. simpl.
    destruct (app w) as [ci cn ca il [h|] cs ti wr co re un];
      destruct o as [|e]; simpl in *; auto.
    destruct (h e); simpl; auto.
Qed.

Lemma run_in_order (evs : list Event) :
  forall w : World, writes_in_order w -> writes_in_order (run evs w).
Proof.
  induction evs as [|ev evs IH]; intros w H; [exact H|].
  simpl. apply IH, step_in_order, H.
Qed.

Lemma save_same_session (now : Z) (s0 s : State) :
  same_session s0 s -> same_session s0 (save now s).
Proof.
  intros (Hi & Hc & new & Hw & Hall).
  destruct (save_cases now s) as [[_ E]|(i & snap & Ei & _ & _ & _ & E)];
    rewrite E; unfold same_session; simpl.
  - eauto.
  - split; [exact Hi|]. split; [exact Hc|].
    exists (new ++ [CanvasData.mk i (canvasName s) (nodes snap)
                      (appState snap) (createdAt s) now]).
    split; [rewrite Hw, app_assoc; reflexivity|].
    apply Forall_app. split; [exact Hall|].
    constructor; [|constructor]. simpl. split; congruence.
Qed.

Lemma step_same_session (s0 : State) (w : World) (ev : Event) :
  same_session s0 (app w) -> keeps_session ev ->
  same_session s0 (app (step w ev)).
Proof.
  intros H Hev. destruct ev as [[id name|h|s|s|id|name g| |T]|o|o];
    simpl in Hev; try contradiction.
  - exact H.
  - unfold_ops. destruct (isLoading (app w)); [exact H|].
    destruct (truthy (canvasId (app w))); exact H.
  - unfold_ops. simpl. destruct (isLoading (app w)); [exact H|].
    destruct (truthy (canvasId (app w))); exact H.
  - exact H.
  - unfold_ops. simpl. apply save_same_session, H.
  - simpl. apply (tick_state_invariant (same_session s0)); [| |exact H].
    + intros now s. apply save_same_session.
    + intros s Hs. exact Hs.
  - destruct o; [contradiction|exact H|exact H].
  - unfold_ops. simpl.
    destruct (app w) as [ci cn ca il [h|] cs ti wr co re un];
      destruct o as [|e]; try exact H.
    simpl. destruct (h e); exact H.
Qed.

Lemma run_same_session (s0 : State) (evs : list Event) :
  forall w : World,
    same_session s0 (app w) -> Forall keeps_session evs ->
    same_session s0 (app (run evs w)).
Proof.
  induction evs as [|ev evs IH]; intros w H Hall; [exact H|].
  inversion Hall; subst. simpl. apply IH; [|assumption].
  apply step_same_session; assumption.
Qed.

End ManagerTraces.

(** ** The manager on top of the IndexedDB service *)

Section BackedFacts.
Import Timers PersistenceManager Backed.
Context {AppState SerializedNode : Type}.
Local Abbreviation World := (World AppState SerializedNode).
Local Abbreviation State := (State AppState SerializedNode).
Local Abbreviation Event := (Event AppState SerializedNode).
Local Abbreviation System := (System AppState SerializedNode).
Local Abbreviation Data := (CanvasData.t AppState SerializedNode).

Lemma put_In (canvas x : Data) store :
  In x (IndexedDbStorageService.put canvas store) -> x = canvas \/ In x store.
Proof.
  induction store as [|c store IH]; simpl.
  - intros [H|[]]. auto.
  - destruct (String.compare (CanvasData.id canvas) (CanvasData.id c)).
    + intros [H|H]; auto.
    + intros [H|H]; auto.
    + intros [H|H]; auto. destruct (IH H); auto.
Qed.

Lemma get_In (id : string) (d : Data) store :
  IndexedDbStorageService.get id store = Some d ->
  In d store /\ CanvasData.id d = id.
Proof.
  induction store as [|c store IH]; simpl; [discriminate|].
  destruct (String.eqb (CanvasData.id c) id) eqn:E.
  - intros H. inversion H; subst. apply String.eqb_eq in E. auto.
  - intros H. destruct (IH H). auto.
Qed.

Lemma skipn_length_app {X : Type} (l new : list X) :
  skipn (List.length l) (l ++ new) = new.
Proof. induction l; simpl; auto. Qed.

Lemma same_session_refl (s : State) : same_session s s.
Proof.
  split; [reflexivity|]. split; [reflexivity|].
  exists []. split; [symmetry; apply app_nil_r|constructor].
Qed.

Lemma NoDup_map_agree (l : list Data) (r1 r2 : Data) :
  NoDup (map CanvasData.id l) -> In r1 l -> In r2 l ->
  CanvasData.id r1 = CanvasData.id r2 -> r1 = r2.
Proof.
  induction l as [|x l IH]; simpl; intros Hn H1 H2 E; [contradiction|].
  inversion Hn as [|? ? Hx Hl]; subst.
  destruct H1 as [H1|H1], H2 as [H2|H2]; subst; auto.
  - exfalso. apply Hx. rewrite E. apply in_map, H2.
  - exfalso. apply Hx. rewrite <- E. apply in_map, H1.
Qed.

Lemma save_settled_frame (o : WriteOutcome) (s : State) :
  canvasId (save_settled o s) = canvasId s /\
  createdAt (save_settled o s) = createdAt s /\
  written (save_settled o s) = written s.
Proof.
  destruct s as [? ? ? ? [h|] ? ? ? ? ? ?]; destruct o as [|e]; simpl;
    try destruct (h e); auto.
Qed.

(** [setCanvasId] puts the session on the id it is given and touches
    neither [createdAt] nor what was written. *)
Lemma setCanvasId_frame (id : string) (name : option string) (w : World) :
  canvasId (app (setCanvasId id name w)) = Some id /\
  createdAt (app (setCanvasId id name w)) = createdAt (app w) /\
  written (app (setCanvasId id name w)) = written (app w).
Proof.
  unfold setCanvasId.
  destruct name as [n|]; [destruct (truthy (Some n))|]; simpl; auto.
Qed.

(** Consistency survives when the store takes up nothing new and the
    session stays as it is. *)
Lemma consistent_shrink (b b' : System) :
  consistent b ->
  incl (store b') (records b) ->
  canvasId (app (world b')) = canvasId (app (world b)) ->
  createdAt (app (world b')) = createdAt (app (world b)) ->
  written (app (world b')) = written (app (world b)) ->
  incl (requests b') (requests b) ->
  consistent b'.
Proof.
  intros (H1 & H2 & H3) Hs Hi Hc Hw Hq.
  assert (Hr : incl (records b') (records b)).
  { unfold records at 1. rewrite Hw. intros x I. apply in_app_or in I.
    destruct I as [I|I]; [apply Hs, I|].
    unfold records. apply in_or_app. right. exact I. }
  split; [|split].
  - intros r1 r2 I1 I2. apply H1; apply Hr; assumption.
  - intros r I E. rewrite Hc. apply H2; [apply Hr, I|]. rewrite <- Hi.
    exact E.
  - intros c I. rewrite Hw. apply H3, Hq, I.
Qed.

(** Consistency survives an event that keeps the session and may write. *)
Lemma consistent_grow (b b' : System) :
  consistent b ->
  store b' = store b ->
  same_session (app (world b)) (app (world b')) ->
  (forall c, In (Put c) (requests b') ->
             In (Put c) (requests b) \/ In c (written (app (world b')))) ->
  consistent b'.
Proof.
  intros (H1 & H2 & H3) Hs (Hi & Hc & new & Hw & Hnew) Hq.
  rewrite Forall_forall in Hnew.
  assert (Hrec : forall r, In r (records b') ->
                           In r (records b) \/ In r new).
  { unfold records. rewrite Hs, Hw. intros r I.
    rewrite !in_app_iff in *. tauto. }
  assert (Hold : forall r1 r2, In r1 (records b) -> In r2 new -> agree r1 r2).
  { intros r1 r2 I1 I2 E. destruct (Hnew r2 I2) as [Ei Ec].
    rewrite Ec. apply H2; [exact I1|]. rewrite <- Ei. f_equal. auto. }
  split; [|split].
  - intros r1 r2 I1 I2.
    destruct (Hrec r1 I1) as [J1|J1], (Hrec r2 I2) as [J2|J2].
    + apply H1; assumption.
    + apply Hold; assumption.
    + intros E. symmetry. apply (Hold r2 r1); auto.
    + intros _. destruct (Hnew r1 J1) as [_ E1], (Hnew r2 J2) as [_ E2].
      congruence.
  - intros r I E. rewrite Hc. rewrite Hi in E.
    destruct (Hrec r I) as [J|J]; [apply H2; assumption|].
    apply (Hnew r J).
  - intros c I. destruct (Hq c I) as [J|J]; [|exact J].
    rewrite Hw. apply in_or_app. left. apply H3, J.
Qed.

Lemma requests_of_written (a : Action AppState SerializedNode)
  (w w' : World) new c :
  written (app w') = written (app w) ++ new ->
  In (Put c) (requests_of a w w') -> In c (written (app w')).
Proof.
  intros Hw. unfold requests_of. rewrite Hw, skipn_length_app.
  intros I. apply in_app_or in I. destruct I as [I|I].
  - apply in_map_iff in I. destruct I as (x & E & I). inversion E; subst.
    apply in_or_app. right. exact I.
  - destruct a; simpl in I; try contradiction.
    destruct I as [I|[]]. discriminate.
Qed.

Lemma step_consistent (b : System) (ev : SystemEvent AppState SerializedNode) :
  consistent b -> allowed b ev -> consistent (system_step b ev).
Proof.
  intros Hb Hev. destruct ev as [a|failure].
  - assert (Hkeep : keeps_session (Does a) ->
                    consistent (system_step b (Act a))).
    { intros Hk.
      pose proof (step_same_session (app (world b)) (world b) (Does a)
                    (same_session_refl _) Hk) as Hs.
      apply (consistent_grow b); [exact Hb|reflexivity|exact Hs|].
      simpl. intros c I. apply in_app_or in I. destruct I as [I|I]; [auto|].
      right. destruct Hs as (_ & _ & new & Hw & _).
      eapply requests_of_written; eauto. }
    destruct a as [id name|h|s|s|id|name g| |T];
      try (apply Hkeep; exact I).
    + simpl in Hev. destruct Hb as (H1 & H2 & H3).
      destruct (setCanvasId_frame id name (world b)) as (Fi & Fc & Fw).
      assert (Hr : records (system_step b (Act (CallSetCanvasId id name)))
                   = records b)
        by (unfold records; simpl; rewrite Fw; reflexivity).
      split; [|split].
      * rewrite Hr. exact H1.
      * rewrite Hr. intros r I E. simpl in E |- *. rewrite Fi in E.
        rewrite Fc. apply Hev; [exact I|]. inversion E. reflexivity.
      * simpl. unfold requests_of. rewrite Fw, skipn_all. simpl.
        rewrite app_nil_r. exact H3.
    + simpl in Hev. destruct Hb as (H1 & H2 & H3). split; [|split].
      * exact H1.
      * intros r I E. simpl in E. inversion E; subst.
        exfalso. exact (Hev r I eq_refl).
      * simpl. unfold requests_of. simpl. intros c I. apply H3.
        rewrite skipn_all in I. simpl in I. rewrite app_nil_r in I.
        exact I.
  - unfold system_step. destruct (requests b) as [|[c|id] rest] eqn:Eq.
    + exact Hb.
    + assert (Hc : In c (written (app (world b)))).
      { destruct Hb as (_ & _ & H3). apply H3. rewrite Eq. left.
        reflexivity. }
      assert (Hrest : incl rest (requests b))
        by (rewrite Eq; apply incl_tl, incl_refl).
      destruct failure as [e|]; simpl.
      * destruct (save_settled_frame (WriteFailed e) (app (world b)))
          as (F1 & F2 & F3).
        apply (consistent_shrink b _ Hb); simpl; auto.
        intros x I. unfold records. apply in_or_app. auto.
      * destruct (save_settled_frame WriteOk (app (world b)))
          as (F1 & F2 & F3).
        apply (consistent_shrink b _ Hb); simpl; auto.
        intros x I. unfold records. apply in_or_app.
        apply put_In in I. destruct I as [I|I]; subst; auto.
    + assert (Hrest : incl rest (requests b))
        by (rewrite Eq; apply incl_tl, incl_refl).
      assert (Hst : incl (store b) (records b))
        by (intros x I; unfold records; apply in_or_app; auto).
      destruct failure as [e|]; simpl.
      * apply (consistent_shrink b _ Hb); simpl; auto.
      * destruct (IndexedDbStorageService.get id (store b)) as [d|] eqn:G.
        -- apply get_In in G. destruct G as [Gi _].
           destruct Hb as (H1 & H2 & H3). split; [|split].
           ++ exact H1.
           ++ intros r I E. simpl in E |- *. inversion E as [E'].
              symmetry. apply (H1 d r); [apply Hst, Gi|exact I|exact E'].
           ++ simpl. intros c I. apply H3, Hrest, I.
        -- apply (consistent_shrink b _ Hb); simpl; auto.
Qed.

Lemma run_consistent (evs : list (SystemEvent AppState SerializedNode)) :
  forall b : System,
    consistent b -> admissible evs b -> consistent (system_run evs b).
Proof.
  induction evs as [|ev evs IH]; intros b Hb Ha; [exact Hb|].
  destruct Ha as [Ha Hrest]. simpl. apply IH; [|exact Hrest].
  apply step_consistent; assumption.
Qed.

Lemma init_consistent t0 store0 :
  NoDup (map CanvasData.id store0) ->
  consistent (system_init (AppState:=AppState)
                          (SerializedNode:=SerializedNode) t0 store0).
Proof.
  intros Hn. split; [|split].
  - unfold records. simpl. rewrite app_nil_r. intros r1 r2 I1 I2 E.
    rewrite (NoDup_map_agree store0 r1 r2 Hn I1 I2 E). reflexivity.
  - simpl. discriminate.
  - simpl. contradiction.
Qed.

(** C8, as the code has it: a record written by [save] carries the
    canvas id and the [createdAt] of the session, which [save] leaves
    alone, and the current time as [updatedAt].  So the [updatedAt] of the
    successive writes never decreases, and as long as the session stays on
    its canvas (no [setCanvasId], no [createNewCanvas], no record loaded)
    the writes all carry the same id and the same [createdAt].  In front
    of the IndexedDB service, all the writes for one id carry one
    [createdAt] when the session is put on a canvas by [loadCanvas], by
    [createNewCanvas] with an unused id, or by [setCanvasId] with an id
    whose records, if any, carry the [createdAt] of the session.
    [setCanvasId] itself changes the canvas id and leaves [createdAt] as
    it is, whatever the id. *)
Theorem writes_carry_createdAt_and_ordered_updatedAt :
  (forall now (s : State),
     createdAt (save now s) = createdAt s /\
     (save now s = s \/
      exists r,
        written (save now s) = written s ++ [r] /\
        canvasId s = Some (CanvasData.id r) /\
        CanvasData.createdAt r = createdAt s /\
        CanvasData.updatedAt r = now)) /\
  (forall t0 (evs : list Event),
     StronglySorted updatedAt_le (written (app (run evs (init t0))))) /\
  (forall (w : World) (evs : list Event),
     Forall keeps_session evs ->
     exists new,
       written (app (run evs w)) = written (app w) ++ new /\
       Forall (fun r => Some (CanvasData.id r) = canvasId (app w) /\
                        CanvasData.createdAt r = createdAt (app w)) new) /\
  (forall t0 store0 (evs : list (SystemEvent AppState SerializedNode)),
     NoDup (map CanvasData.id store0) ->
     admissible evs (system_init t0 store0) ->
     forall r1 r2,
       In r1 (written (app (world (system_run evs (system_init t0 store0))))) ->
       In r2 (written (app (world (system_run evs (system_init t0 store0))))) ->
       CanvasData.id r1 = CanvasData.id r2 ->
       CanvasData.createdAt r1 = CanvasData.createdAt r2) /\
  (forall id name (w : World),
     canvasId (app (setCanvasId id name w)) = Some id /\
     createdAt (app (setCanvasId id name w)) = createdAt (app w) /\
     written (app (setCanvasId id name w)) = written (app w)).
Proof.
  split; [|split; [|split; [|split]]]; [| | | |apply setCanvasId_frame].
  - intros now s.
    destruct (save_cases now s) as [[_ E]|(i & snap & Ei & _ & _ & _ & E)];
      rewrite E; simpl; split; auto.
    right. eexists. split; [reflexivity|]. simpl. auto.
  - intros t0 evs. apply (run_in_order evs (init t0)).
    split; simpl; constructor.
  - intros w evs Hall.
    destruct (run_same_session (app w) evs w) as (_ & _ & Hnew);
      [|exact Hall|exact Hnew].
    split; [reflexivity|]. split; [reflexivity|].
    exists []. split; [symmetry; apply app_nil_r|constructor].
  - intros t0 store0 evs Hn Ha r1 r2 I1 I2.
    destruct (run_consistent evs (system_init t0 store0)
                (init_consistent t0 store0 Hn) Ha) as (H1 & _).
    apply H1; unfold records; apply in_or_app; right; assumption.
Qed.
End BackedFacts.

(** ** Listing the stored canvases *)

Section ListingFacts.
Import IndexedDbStorageService.
Context {AppState SerializedNode : Type}.

Lemma insert_perm {X : Type} (cmp : X -> X -> Z) (x : X) (l : list X) :
  Permutation (x :: l) (insert cmp x l).
Proof.
  induction l as [|y l IH]; simpl; [reflexivity|].
  destruct (cmp x y <=? 0); [reflexivity|].
  rewrite perm_swap. constructor. exact IH.
Qed.

Lemma sort_perm {X : Type} (cmp : X -> X -> Z) (l : list X) :
  Permutation l (sort cmp l).
Proof.
  induction l as [|x l IH]; simpl; [reflexivity|].
  rewrite <- insert_perm. constructor. exact IH.
Qed.

Lemma insert_descending (x : CanvasMetadata.t) (l : list CanvasMetadata.t) :
  StronglySorted newer_or_same l ->
  StronglySorted newer_or_same (insert by_updatedAt_desc x l).
Proof.
  induction 1 as [|y l Hs IH Hy]; simpl.
  - constructor; constructor.
  - unfold by_updatedAt_desc at 1.
    destruct (_ <=? 0) eqn:L.
    + apply Z.leb_le in L. constructor; [constructor; assumption|].
      constructor; [unfold newer_or_same; lia|].
      eapply Forall_impl; [|exact Hy]. unfold newer_or_same. intros; lia.
    + apply Z.leb_gt in L. constructor; [exact IH|].
      eapply Permutation_Forall; [apply insert_perm|].
      constructor; [unfold newer_or_same; lia|exact Hy].
Qed.

Lemma sort_descending (l : list CanvasMetadata.t) :
  StronglySorted newer_or_same (sort by_updatedAt_desc l).
Proof.
  induction l as [|x l IH]; simpl; [constructor|].
  apply insert_descending, IH.
Qed.

(** The sort is stable: among the entries of one [updatedAt], the order
    is the one they came in. *)
Lemma insert_stable (u : Z) (x : CanvasMetadata.t) (l : list CanvasMetadata.t) :
  filter (updated_at u) (insert by_updatedAt_desc x l)
  = filter (updated_at u) (x :: l).
Proof.
  induction l as [|y l IH]; simpl; [reflexivity|].
  unfold by_updatedAt_desc at 1. destruct (_ <=? 0) eqn:L; [reflexivity|].
  apply Z.leb_gt in L. simpl. rewrite IH. simpl.
  unfold updated_at.
  destruct (CanvasMetadata.updatedAt x =? u) eqn:Ex;
    destruct (CanvasMetadata.updatedAt y =? u) eqn:Ey; try reflexivity.
  apply Z.eqb_eq in Ex, Ey. lia.
Qed.

Lemma sort_stable (u : Z) (l : list CanvasMetadata.t) :
  filter (updated_at u) (sort by_updatedAt_desc l) = filter (updated_at u) l.
Proof.
  induction l as [|x l IH]; simpl; [reflexivity|].
  rewrite insert_stable. simpl. rewrite IH. reflexivity.
Qed.

(** C9, as the code has it: [listCanvases()] resolves with the metadata
    of every record, each once, in descending order of [updatedAt]:
    entries of the same [updatedAt] are all there, next to each other, in
    the order [getAll] gave them. *)
Theorem listCanvases_sorted_descending
  (canvases : list (CanvasData.t AppState SerializedNode)) :
  listCanvases (Resolved canvases) = Resolved (onsuccess canvases) /\
  Permutation (map metadata_of canvases) (onsuccess canvases) /\
  StronglySorted newer_or_same (onsuccess canvases) /\
  (forall u, filter (updated_at u) (onsuccess canvases)
             = filter (updated_at u) (map metadata_of canvases)).
Proof.
  split; [reflexivity|]. split; [apply sort_perm|].
  split; [apply sort_descending|]. intros u. apply sort_stable.
Qed.
End ListingFacts.

(** * Concrete runs *)

Section Concrete.
Import Timers PersistenceManager IndexedDbStorageService Runs.
Local Open Scope string_scope.

(** In the run [repointed] canvas "a" is written twice, with two
    different [createdAt]: the one of the manager (0), then the one of the
    canvas created in between (1000). *)
Lemma createdAt_differs_for_same_id :
  exists r1 r2,
    In r1 (written (app (run repointed (init 0)))) /\
    In r2 (written (app (run repointed (init 0)))) /\
    CanvasData.id r1 = CanvasData.id r2 /\
    CanvasData.createdAt r1 <> CanvasData.createdAt r2.
Proof.
  exists (CanvasData.mk "a" "Untitled Canvas" [1%nat] 1%nat 0 1000),
         (CanvasData.mk "a" "Untitled Canvas" [2%nat] 2%nat 1000 2000).
  split; [vm_compute; left; reflexivity|].
  split; [vm_compute; right; left; reflexivity|].
  split; [reflexivity|]. simpl. lia.
Qed.

(** With a window of 2147483648, which the timer does not hold, two calls
    50 apart are a burst of the debounced function, and [fn] has run for
    each of them by time 100, not once for the two. *)
Lemma burst_beyond_timer_range_runs_each_call :
  Debounce.burst 2147483648 0 [50] /\
  map snd
      (Debounce.invoked
         (app (Debounce.tick count 100
                 (Debounce.calls count 2147483648 two_calls
                    (Debounce.init 0 O)))))
  = [[1%nat]; [2%nat]].
Proof.
  split; [simpl; lia|]. vm_compute. reflexivity.
Qed.


(** Two canvases written at the same time are both listed: the list is
    not strictly descending. *)
Lemma listCanvases_not_strictly_descending :
  listCanvases (Resolved tied) = Resolved (onsuccess tied) /\
  ~ Sorted strictly_newer (onsuccess tied).
Proof.
  split; [reflexivity|]. intros H. inversion H as [|x l _ Hd]; subst.
  inversion Hd as [|y l' Hxy]; subst. unfold strictly_newer in Hxy.
  simpl in Hxy. lia.
Qed.

(** Five changes within the window give one write, of the last
    snapshot, one second after the last change. *)
Example five_changes_one_write :
  written (app (run five_changes (init 0)))
  = [CanvasData.mk "c1" "Untitled Canvas" [5%nat] 5%nat 0 1200].
Proof. vm_compute. reflexivity. Qed.

Example three_listed_newest_first :
  map CanvasMetadata.id (onsuccess three) = ["y"; "z"; "x"].
Proof. vm_compute. reflexivity. Qed.

(** A change notified while a load is under way schedules nothing. *)
Example change_during_load_not_saved :
  written (app (run [Does (CallOnStateChange (snap 1));
                     Does (TimePasses 5000)] loading)) = [] /\
  queue (loop (onStateChange (snap 1) loading)) = [].
Proof. vm_compute. auto. Qed.

Lemma onStateChange_noop_while_loading_witness :
  isLoading (app loading) = true /\
  onStateChange (snap 1) loading = loading /\
  run [Does (TimePasses 5000)]
      (fold_left (fun w s => onStateChange s w) [snap 1; snap 2] loading)
  = run [Does (TimePasses 5000)] loading.
Proof.
  destruct (onStateChange_noop_while_loading (snap 1) loading eq_refl)
    as [H1 H2].
  split; [reflexivity|]. split; [exact H1|].
  exact (H2 [snap 1; snap 2] [Does (TimePasses 5000)]).
Defined.

Lemma save_only_when_ready_witness :
  save 5 (app loading) = app loading /\
  save 5 (app (init (AppState:=nat) (SerializedNode:=nat) 0)) = app (init 0).
Proof.
  split.
  - apply (proj2 (save_only_when_ready 5 (app loading))).
    right. right. reflexivity.
  - apply (proj2 (save_only_when_ready 5 (app (init 0)))).
    left. reflexivity.
Defined.


Lemma save_failure_reported_not_thrown_witness :
  let s := app (setErrorHandler (fun _ => None) loading) in
  let s' := save_settled (WriteFailed "quota") s in
  reported s' = ["quota"] /\ unhandled s' = [] /\
  unhandled (app (run (Does (CallSetErrorHandler (fun _ => None)) :: one_session)
                      (init 0))) = [].
Proof.
  intros s s'.
  destruct (save_failure_reported_not_thrown "quota" s)
    as (_ & _ & H1 & _ & H2 & _ & H3).
  split; [apply (H1 (fun _ => None)); reflexivity|].
  split; [apply H2; intros e; reflexivity|].
  apply H3. repeat constructor.
Defined.

Lemma writes_carry_createdAt_and_ordered_updatedAt_witness :
  let w := setCanvasId "a" None (init 0) in
  let b := Backed.system_run put_on_a (Backed.system_init 0 []) in
  Forall keeps_session one_session /\
  (exists new,
     written (app (run one_session w)) = (written (app w) ++ new)%list /\
     Forall (fun r => Some (CanvasData.id r) = canvasId (app w) /\
                      CanvasData.createdAt r = createdAt (app w)) new) /\
  Backed.admissible put_on_a (Backed.system_init 0 []) /\
  map (fun r => (CanvasData.id r, CanvasData.updatedAt r))
      (written (app (Backed.world b)))
  = [("a", 1000); ("b", 2000); ("a", 3200)] /\
  forall r1 r2,
    In r1 (written (app (Backed.world b))) ->
    In r2 (written (app (Backed.world b))) ->
    CanvasData.id r1 = CanvasData.id r2 ->
    CanvasData.createdAt r1 = CanvasData.createdAt r2.
Proof.
  intros w b.
  assert (H : Forall keeps_session one_session)
    by (repeat constructor).
  assert (Hn : NoDup (map (CanvasData.id (AppState:=nat)
                                         (SerializedNode:=nat)) []))
    by constructor.
  assert (Ha : Backed.admissible put_on_a (Backed.system_init 0 [])).
  { vm_compute. intuition; subst; try discriminate; reflexivity. }
  destruct (writes_carry_createdAt_and_ordered_updatedAt
              (AppState:=nat) (SerializedNode:=nat))
    as (_ & _ & H3 & H4 & _).
  split; [exact H|]. split; [exact (H3 w one_session H)|].
  split; [exact Ha|]. split; [vm_compute; reflexivity|].
  exact (H4 0 [] put_on_a Hn Ha).
Defined.

End Concrete.

(** * Further properties *)

(** ** The object store behind the service *)

Section StoreFacts.
Import IndexedDbStorageService.
Context {AppState SerializedNode : Type}.
Local Abbreviation Data := (CanvasData.t AppState SerializedNode).
Local Abbreviation Store := (ObjectStore AppState SerializedNode).

Lemma compare_refl (k : string) : String.compare k k = Eq.
Proof. apply OrderedTypeEx.String_as_OT.cmp_eq. reflexivity. Qed.

Lemma compare_eq (a b : string) : String.compare a b = Eq -> a = b.
Proof. apply OrderedTypeEx.String_as_OT.cmp_eq. Qed.

Lemma compare_lt_trans (a b c : string) :
  String.compare a b = Lt -> String.compare b c = Lt ->
  String.compare a c = Lt.
Proof.
  intros H1 H2. apply OrderedTypeEx.String_as_OT.cmp_lt.
  apply OrderedTypeEx.String_as_OT.cmp_lt in H1, H2.
  eapply OrderedTypeEx.String_as_OT.lt_trans; eassumption.
Qed.

Lemma compare_gt_lt (a b : string) :
  String.compare a b = Gt -> String.compare b a = Lt.
Proof.
  intros H. rewrite OrderedTypeEx.String_as_OT.cmp_antisym in H.
  unfold OrderedTypeEx.String_as_OT.cmp in H.
  destruct (String.compare b a); simpl in H; congruence.
Qed.

Lemma compare_neq (a b : string) :
  String.compare a b <> Eq -> a <> b.
Proof. intros H E. subst. apply H, compare_refl. Qed.

Lemma get_put_same (canvas : Data) (store : Store) :
  get (CanvasData.id canvas) (put canvas store) = Some canvas.
Proof.
  induction store as [|c store IH]; simpl.
  - rewrite String.eqb_refl. reflexivity.
  - destruct (String.compare (CanvasData.id canvas) (CanvasData.id c)) eqn:E;
      simpl.
    + rewrite String.eqb_refl. reflexivity.
    + rewrite String.eqb_refl. reflexivity.
    + assert (N : CanvasData.id c <> CanvasData.id canvas).
      { intros Heq. rewrite Heq, compare_refl in E. discriminate. }
      apply String.eqb_neq in N. rewrite N. exact IH.
Qed.

Lemma get_put_other (canvas : Data) (k : string) (store : Store) :
  k <> CanvasData.id canvas -> get k (put canvas store) = get k store.
Proof.
  intros Hk.
  assert (N : String.eqb (CanvasData.id canvas) k = false)
    by (apply String.eqb_neq; congruence).
  induction store as [|c store IH]; simpl.
  - rewrite N. reflexivity.
  - destruct (String.compare (CanvasData.id canvas) (CanvasData.id c)) eqn:E;
      simpl.
    + apply compare_eq in E. rewrite N, <- E, N. reflexivity.
    + rewrite N. reflexivity.
    + rewrite IH. reflexivity.
Qed.

(** Saving and loading back: after [saveCanvas(canvas)] went through,
    [loadCanvas] of its id resolves with exactly that record, whatever the
    store held before; a failed save leaves the store as it was. *)
Theorem saveCanvas_then_loadCanvas
  (canvas : Data) (store : Store) (e : string) :
  snd (saveCanvas canvas None store) = Resolved tt /\
  loadCanvas (CanvasData.id canvas) None (fst (saveCanvas canvas None store))
  = Resolved (Some canvas) /\
  saveCanvas canvas (Some e) store = (store, Rejected e).
Proof.
  simpl. unfold loadCanvas. rewrite get_put_same. auto.
Qed.

(** Saving one canvas changes what [loadCanvas] resolves with for no
    other id, a missing one staying missing. *)
Theorem saveCanvas_keeps_other_ids
  (canvas : Data) (store : Store) (k : string) :
  k <> CanvasData.id canvas ->
  loadCanvas k None (fst (saveCanvas canvas None store))
  = loadCanvas k None store.
Proof.
  intros Hk. simpl. unfold loadCanvas. rewrite get_put_other by exact Hk.
  reflexivity.
Qed.

(** The last write wins: two saves of the same id leave the store as the
    second alone would. *)
Theorem saveCanvas_last_write_wins (c1 c2 : Data) (store : Store) :
  CanvasData.id c1 = CanvasData.id c2 ->
  fst (saveCanvas c2 None (fst (saveCanvas c1 None store)))
  = fst (saveCanvas c2 None store).
Proof.
  intros E. simpl. induction store as [|c store IH]; simpl.
  - rewrite <- E, compare_refl. reflexivity.
  - rewrite <- E.
    destruct (String.compare (CanvasData.id c1) (CanvasData.id c)) eqn:C;
      simpl.
    + rewrite <- E, compare_refl. reflexivity.
    + rewrite <- E, compare_refl. reflexivity.
    + rewrite <- E, C. rewrite IH. reflexivity.
Qed.
Lemma put_In_keyed (canvas x : Data) (store : Store) :
  keyed store -> In x (put canvas store) ->
  x = canvas \/ (In x store /\ CanvasData.id x <> CanvasData.id canvas).
Proof.
  induction 1 as [|c store Hs IH Hc]; simpl.
  - intros [H|[]]. auto.
  - rewrite Forall_forall in Hc.
    destruct (String.compare (CanvasData.id canvas) (CanvasData.id c)) eqn:E.
    + apply compare_eq in E. intros [H|H]; [auto|]. right.
      split; [auto|]. apply not_eq_sym, compare_neq. rewrite E, (Hc x H).
      discriminate.
    + intros [H|[H|H]]; [auto| |]; right; (split; [simpl; auto|]);
        apply not_eq_sym, compare_neq.
      * subst. rewrite E. discriminate.
      * rewrite (compare_lt_trans _ _ _ E (Hc x H)). discriminate.
    + intros [H|H].
      * right. subst. split; [auto|]. apply compare_neq.
        rewrite (compare_gt_lt _ _ E). discriminate.
      * destruct (IH H) as [J|[J1 J2]]; auto.
Qed.

Lemma put_keyed (canvas : Data) (store : Store) :
  keyed store -> keyed (put canvas store).
Proof.
  induction 1 as [|c store Hs IH Hc]; simpl.
  - constructor; constructor.
  - destruct (String.compare (CanvasData.id canvas) (CanvasData.id c)) eqn:E.
    + apply compare_eq in E. constructor; [exact Hs|]. rewrite E. exact Hc.
    + constructor; [constructor; assumption|].
      constructor; [exact E|]. eapply Forall_impl; [|exact Hc].
      simpl. intros a Ha. eapply compare_lt_trans; eassumption.
    + constructor; [exact IH|]. rewrite Forall_forall in *. intros x Hx.
      apply put_In in Hx. destruct Hx as [Hx|Hx]; [|auto].
      subst. apply compare_gt_lt, E.
Qed.

Lemma delete_keyed (k : string) (store : Store) :
  keyed store -> keyed (delete k store).
Proof.
  induction 1 as [|c store Hs IH Hc]; simpl; [constructor|].
  destruct (negb (String.eqb (CanvasData.id c) k)); [|exact IH].
  constructor; [exact IH|]. rewrite Forall_forall in *. intros x Hx.
  apply filter_In in Hx. apply Hc, Hx.
Qed.

Lemma keyed_NoDup (store : Store) :
  keyed store -> NoDup (map CanvasData.id store).
Proof.
  induction 1 as [|c store Hs IH Hc]; simpl; constructor; [|exact IH].
  intros Hin. apply in_map_iff in Hin. destruct Hin as (x & E & Hx).
  rewrite Forall_forall in Hc. specialize (Hc x Hx).
  rewrite E, compare_refl in Hc. discriminate.
Qed.

(** The store stays keyed: after a save or a deletion, failed or not, the
    records are still in the order of their ids, one for an id. *)
Theorem store_stays_keyed
  (store : Store) (canvas : Data) (k : string) (failure : option string) :
  keyed store ->
  keyed (fst (saveCanvas canvas failure store)) /\
  keyed (fst (deleteCanvas k failure store)) /\
  NoDup (map CanvasData.id (fst (saveCanvas canvas failure store))).
Proof.
  intros H. assert (Hs : keyed (fst (saveCanvas canvas failure store)))
    by (destruct failure; simpl; [exact H|apply put_keyed, H]).
  split; [exact Hs|]. split; [|apply keyed_NoDup, Hs].
  destruct failure; simpl; [exact H|apply delete_keyed, H].
Qed.

Lemma get_delete_same (k : string) (store : Store) :
  get k (delete k store) = None.
Proof.
  induction store as [|c store IH]; simpl; [reflexivity|].
  destruct (String.eqb (CanvasData.id c) k) eqn:E; simpl; [exact IH|].
  rewrite E. exact IH.
Qed.

Lemma get_delete_other (k k' : string) (store : Store) :
  k' <> k -> get k' (delete k store) = get k' store.
Proof.
  intros Hk. induction store as [|c store IH]; simpl; [reflexivity|].
  destruct (String.eqb (CanvasData.id c) k) eqn:E; simpl.
  - apply String.eqb_eq in E.
    assert (N : String.eqb (CanvasData.id c) k' = false)
      by (apply String.eqb_neq; congruence).
    rewrite N. exact IH.
  - destruct (String.eqb (CanvasData.id c) k'); [reflexivity|exact IH].
Qed.

Lemma delete_absent (k : string) (store : Store) :
  get k store = None -> delete k store = store.
Proof.
  induction store as [|c store IH]; simpl; [reflexivity|].
  destruct (String.eqb (CanvasData.id c) k); [discriminate|].
  intros H. simpl. rewrite (IH H). reflexivity.
Qed.

(** [deleteCanvas(id)] removes that canvas and no other: afterwards
    [loadCanvas(id)] resolves with null, every other id loads as before,
    and deleting an id the store does not hold changes nothing. *)
Theorem deleteCanvas_removes_only_that_id (k : string) (store : Store) :
  loadCanvas k None (fst (deleteCanvas k None store)) = Resolved None /\
  (forall k', k' <> k ->
              loadCanvas k' None (fst (deleteCanvas k None store))
              = loadCanvas k' None store) /\
  (loadCanvas k None store = Resolved None ->
   deleteCanvas k None store = (store, Resolved tt)).
Proof.
  simpl. unfold loadCanvas. split; [rewrite get_delete_same; reflexivity|].
  split.
  - intros k' Hk. rewrite get_delete_other by exact Hk. reflexivity.
  - intros H. inversion H as [E]. rewrite (delete_absent k store E).
    reflexivity.
Qed.

(** The listing of a keyed store has one entry for a record, no id
    twice. *)
Theorem listing_has_distinct_ids (store : Store) :
  keyed store ->
  List.length (onsuccess store) = List.length store /\
  NoDup (map CanvasMetadata.id (onsuccess store)).
Proof.
  intros H.
  pose proof (sort_perm by_updatedAt_desc (map metadata_of store)) as P.
  fold (onsuccess store) in P. split.
  - rewrite <- (Permutation_length P). apply length_map.
  - eapply Permutation_NoDup; [apply Permutation_map, P|].
    rewrite map_map. simpl. apply keyed_NoDup, H.
Qed.

(** A canvas saved with an [updatedAt] later than that of every other
    canvas of the store comes first in the listing. *)
Theorem saved_canvas_listed_first (canvas : Data) (store : Store) :
  keyed store ->
  (forall x, In x store ->
             CanvasData.id x <> CanvasData.id canvas ->
             CanvasData.updatedAt x < CanvasData.updatedAt canvas) ->
  exists rest,
    listCanvases (Resolved (fst (saveCanvas canvas None store)))
    = Resolved (metadata_of canvas :: rest).
Proof.
  intros Hk Hnew. simpl.
  pose proof (sort_perm by_updatedAt_desc
                (map metadata_of (put canvas store))) as P.
  pose proof (sort_descending (map metadata_of (put canvas store))) as D.
  fold (onsuccess (put canvas store)) in P, D.
  assert (Hin : In (metadata_of canvas) (onsuccess (put canvas store))).
  { eapply Permutation_in; [exact P|]. apply in_map.
    pose proof (get_put_same canvas store) as G. apply get_In in G.
    apply G. }
  destruct (onsuccess (put canvas store)) as [|h rest] eqn:E;
    [contradiction|].
  exists rest. f_equal. f_equal.
  assert (Hh : In h (map metadata_of (put canvas store))).
  { eapply Permutation_in; [symmetry; exact P|left; reflexivity]. }
  apply in_map_iff in Hh. destruct Hh as (x & Ex & Hx).
  destruct (put_In_keyed canvas x store Hk Hx) as [J|[J1 J2]];
    [subst; reflexivity|].
  exfalso. specialize (Hnew x J1 J2).
  assert (Ux : CanvasMetadata.updatedAt h = CanvasData.updatedAt x)
    by (rewrite <- Ex; reflexivity).
  inversion D as [|? ? _ Hall]; subst.
  destruct Hin as [Hin|Hin].
  - rewrite Hin in Ux. simpl in Ux. lia.
  - rewrite Forall_forall in Hall. specialize (Hall _ Hin).
    unfold newer_or_same in Hall. simpl in Hall. simpl in Ux. lia.
Qed.
End StoreFacts.

(** ** The timers of a manager *)

Section LifecycleFacts.
Import Timers PersistenceManager Lifecycle.
Context {AppState SerializedNode : Type}.
Local Abbreviation World := (World AppState SerializedNode).
Local Abbreviation State := (State AppState SerializedNode).
Local Abbreviation Event := (Event AppState SerializedNode).
Local Abbreviation Snapshot := (Snapshot AppState SerializedNode).

Ltac unfold_ops :=
  unfold step, act, setCanvasId, setErrorHandler, updateSnapshot,
    onStateChange, debouncedSave, loadCanvas, loadCanvas_settled,
    createNewCanvas, forceSave, release_later, on_app, Debounce.schedule,
    Debounce.cancel in *.

Lemma NoDup_map_filter {X Y : Type} (f : X -> Y) (p : X -> bool) l :
  NoDup (map f l) -> NoDup (map f (filter p l)).
Proof.
  induction l as [|x l IH]; simpl; intros H; [constructor|].
  inversion H as [|? ? Hx Hl]; subst.
  destruct (p x); simpl; [|auto]. constructor; [|auto].
  intros Hin. apply Hx. apply in_map_iff in Hin.
  destruct Hin as (y & E & Hy). apply filter_In in Hy.
  rewrite <- E. apply in_map, Hy.
Qed.

Lemma timed_clear (x held : option nat) (l : Loop Callback) :
  timed l held -> timed (clearTimeout x l) held.
Proof.
  intros (H1 & H2 & H3 & H4). destruct x as [i|]; simpl; [|repeat split; auto].
  split; [apply NoDup_map_filter, H1|].
  split; [|split; [exact H3|]]; simpl;
    rewrite Forall_forall in *; intros tm Hin; apply filter_In in Hin;
    [apply H2|apply H4]; apply Hin.
Qed.

(** Cancelling the timer whose id is held leaves no debounced save. *)
Lemma clear_held_no_save (held : option nat) (l : Loop Callback) :
  timed l held ->
  Forall (fun tm => cb tm <> DebouncedSave) (queue (clearTimeout held l)).
Proof.
  intros (_ & _ & _ & H4). rewrite Forall_forall in *.
  destruct held as [i|]; simpl.
  - intros tm Hin. apply filter_In in Hin. destruct Hin as [Hin Hne].
    intros Hc. apply H4 in Hc; [|exact Hin]. inversion Hc; subst.
    rewrite Nat.eqb_refl in Hne. discriminate.
  - intros tm Hin Hc. apply H4 in Hc; [|exact Hin]. discriminate.
Qed.

(** ... and cancels nothing else. *)
Lemma clear_held_keeps_others (held : option nat) (l : Loop Callback) tm :
  timed l held -> In tm (queue l) -> cb tm <> DebouncedSave ->
  In tm (queue (clearTimeout held l)).
Proof.
  intros (_ & _ & _ & H4) Hin Hc. rewrite Forall_forall in H4.
  destruct held as [i|]; simpl; [|exact Hin].
  apply filter_In. split; [exact Hin|].
  destruct (Nat.eqb (tid tm) i) eqn:E; [|reflexivity].
  apply Nat.eqb_eq in E. subst. exfalso. apply Hc, (H4 tm Hin). reflexivity.
Qed.

Lemma timed_set_save (held : option nat) (l : Loop Callback) ms :
  timed l held ->
  Forall (fun tm => cb tm <> DebouncedSave) (queue l) ->
  timed (fst (setTimeout DebouncedSave ms l)) (Some (fresh l)).
Proof.
  intros (H1 & H2 & H3 & H4) Hn. unfold timed, setTimeout. simpl.
  rewrite Forall_forall in H2, H4, Hn. split; [|split; [|split]].
  - rewrite map_app. simpl. apply NoDup_app; [exact H1|repeat constructor; auto|].
    intros y Hy [Hy'|[]]. subst. apply in_map_iff in Hy.
    destruct Hy as (tm & E & Hin). specialize (H2 tm Hin). lia.
  - apply Forall_app. split; [|repeat constructor].
    rewrite Forall_forall. intros tm Hin. specialize (H2 tm Hin). lia.
  - intros i E. inversion E. lia.
  - apply Forall_app. split.
    + rewrite Forall_forall. intros tm Hin. split.
      * intros Hc. exfalso. exact (Hn tm Hin Hc).
      * intros E. inversion E as [E']. specialize (H2 tm Hin). lia.
    + constructor; [simpl; tauto|constructor].
Qed.

Lemma timed_set_other (held : option nat) (l : Loop Callback) c ms :
  timed l held -> c <> DebouncedSave ->
  timed (fst (setTimeout c ms l)) held.
Proof.
  intros (H1 & H2 & H3 & H4) Hc. unfold timed, setTimeout. simpl.
  rewrite Forall_forall in H2, H4. split; [|split; [|split]].
  - rewrite map_app. simpl. apply NoDup_app; [exact H1|repeat constructor; auto|].
    intros y Hy [Hy'|[]]. subst. apply in_map_iff in Hy.
    destruct Hy as (tm & E & Hin). specialize (H2 tm Hin). lia.
  - apply Forall_app. split; [|repeat constructor].
    rewrite Forall_forall. intros tm Hin. specialize (H2 tm Hin). lia.
  - intros i E. specialize (H3 i E). lia.
  - apply Forall_app. split; [rewrite Forall_forall; exact H4|].
    constructor; [|constructor]. simpl. split; [contradiction|].
    intros E. specialize (H3 _ E). lia.
Qed.

Lemma timed_pop (held : option nat) (l : Loop Callback) tm r c :
  timed l held -> pop_next (queue l) = Some (tm, r) ->
  timed (mkLoop c (fresh l) r) held.
Proof.
  intros (H1 & H2 & H3 & H4) E. apply pop_next_perm in E.
  assert (Hr : incl r (queue l)).
  { intros x Hx. eapply Permutation_in; [symmetry; exact E|right; exact Hx]. }
  split; [|split; [|split]]; simpl.
  - apply (Permutation_map tid) in E. apply (Permutation_NoDup E) in H1.
    simpl in H1. inversion H1; assumption.
  - rewrite Forall_forall in *. intros x Hx. apply H2, Hr, Hx.
  - exact H3.
  - rewrite Forall_forall in *. intros x Hx. apply H4, Hr, Hx.
Qed.

Lemma timed_clock (held : option nat) (l : Loop Callback) c :
  timed l held -> timed (mkLoop c (fresh l) (queue l)) held.
Proof. intros H. exact H. Qed.

Lemma run_cb_timeoutId (c : Callback) (now : Z) (s : State) :
  timeoutId (run_cb c now s) = timeoutId s.
Proof. destruct c; simpl; [apply save_frame|reflexivity|reflexivity]. Qed.

Lemma save_settled_timeoutId (o : WriteOutcome) (s : State) :
  timeoutId (save_settled o s) = timeoutId s.
Proof.
  destruct s as [? ? ? ? [h|] ? ? ? ? ? ?]; destruct o as [|e]; simpl;
    try destruct (h e); reflexivity.
Qed.

Lemma tick_well_timed (T : Z) (w : World) :
  well_timed w -> well_timed (tick T w).
Proof.
  intros H. unfold tick, advance, well_timed. simpl.
  apply (fire_invariant run_cb well_timed); [|exact H].
  intros m tm r Hm E _. unfold well_timed, fire_one. simpl.
  rewrite run_cb_timeoutId. eapply timed_pop; eassumption.
Qed.

Lemma debouncedSave_well_timed (w : World) :
  well_timed w -> well_timed (debouncedSave w).
Proof.
  intros H. unfold debouncedSave, Debounce.schedule, well_timed. simpl.
  pose proof (clear_held_no_save _ _ H) as Hn.
  pose proof (timed_clear (timeoutId (app w)) _ _ H) as Hc.
  pose proof (timed_set_save _ _ 1000 Hc Hn) as Hs.
  destruct (timeoutId (app w)); exact Hs.
Qed.

Lemma step_well_timed (w : World) (ev : Event) :
  well_timed w -> well_timed (step w ev).
Proof.
  intros H. destruct ev as [[id name|h|s|s|id|name g| |T]|o|o].
  - unfold_ops. destruct name as [n|]; [destruct (truthy (Some n))|];
      exact H.
  - exact H.
  - unfold step, act, onStateChange. destruct (isLoading (app w)); [exact H|].
    destruct (truthy (canvasId (app w))); [|exact H].
    apply debouncedSave_well_timed. exact H.
  - unfold step, act, updateSnapshot, onStateChange. simpl.
    destruct (isLoading (app w)); [exact H|].
    destruct (truthy (canvasId (app w))); [|exact H].
    apply debouncedSave_well_timed. exact H.
  - exact H.
  - exact H.
  - unfold step, act, forceSave, Debounce.cancel, well_timed. simpl.
    destruct (save_frame (clock (clearTimeout (timeoutId (app w)) (loop w)))
                (app w)) as (_ & _ & _ & E & _).
    rewrite E. apply (timed_set_other _ _ _ 50); [|discriminate].
    apply timed_clear, H.
  - apply tick_well_timed, H.
  - unfold step, loadCanvas_settled, release_later, well_timed.
    destruct o; simpl;
      (apply (timed_set_other _ _ _ 100); [exact H|discriminate]).
  - unfold step, on_app, well_timed. simpl.
    rewrite save_settled_timeoutId. exact H.
Qed.

Lemma run_well_timed (evs : list Event) :
  forall w : World, well_timed w -> well_timed (run evs w).
Proof.
  induction evs as [|ev evs IH]; intros w H; [exact H|].
  simpl. apply IH, step_well_timed, H.
Qed.

Lemma init_well_timed (t0 : Z) :
  well_timed (init (AppState:=AppState) (SerializedNode:=SerializedNode) t0).
Proof.
  split; [constructor|]. split; [constructor|]. split; [discriminate|].
  constructor.
Qed.

Lemma no_save_beside_held (held : option nat) (q : list (Timer Callback)) i :
  Forall (fun tm => cb tm = DebouncedSave <-> held = Some (tid tm)) q ->
  held = Some i -> ~ In i (map tid q) -> filter is_save q = [].
Proof.
  intros H Eh. induction H as [|y q Hy Hq IH]; simpl; intros Hn;
    [reflexivity|].
  unfold is_save at 1. destruct (cb y) eqn:Ey.
  - exfalso. apply Hn. left. pose proof (proj1 Hy eq_refl) as E.
    congruence.
  - apply IH. intros Hin. apply Hn. right. exact Hin.
  - apply IH. intros Hin. apply Hn. right. exact Hin.
Qed.

(** In a well-timed world at most one debounced save is scheduled. *)
Lemma timed_one_save (held : option nat) (l : Loop Callback) :
  timed l held -> (List.length (filter is_save (queue l)) <= 1)%nat.
Proof.
  intros (H1 & _ & _ & H4).
  induction (queue l) as [|tm q IH]; simpl; [lia|].
  inversion H1 as [|? ? Hx Hq]; subst. inversion H4 as [|? ? Ht Hq4]; subst.
  specialize (IH Hq Hq4). unfold is_save at 1.
  destruct (cb tm) eqn:Ec; try (simpl; lia).
  rewrite (no_save_beside_held held q (tid tm) Hq4 (proj1 Ht eq_refl) Hx).
  simpl. lia.
Qed.

(** Whatever the program does and the storage answers, a manager has at
    most one save scheduled. *)
Theorem at_most_one_save_scheduled (t0 : Z) (evs : list Event) :
  (List.length (scheduled_saves (run evs (init t0))) <= 1)%nat.
Proof.
  apply (timed_one_save (timeoutId (app (run evs (init t0))))).
  apply run_well_timed, init_well_timed.
Qed.
Lemma no_save_filter (q : list (Timer Callback)) :
  Forall (fun tm => cb tm <> DebouncedSave) q -> filter is_save q = [].
Proof.
  induction 1 as [|tm q H _ IH]; simpl; [reflexivity|].
  unfold is_save at 1. destruct (cb tm); [contradiction|exact IH|exact IH].
Qed.

(** As long as no debounced save comes due, time passing writes
    nothing. *)
Lemma tick_no_save_due (T : Z) (w : World) :
  Forall (fun tm => cb tm = DebouncedSave -> T < due tm) (queue (loop w)) ->
  written (app (tick T w)) = written (app w).
Proof.
  intros Hall. unfold tick, advance. simpl.
  pose (P := fun m : World =>
               written (app m) = written (app w) /\
               Forall (fun tm => cb tm = DebouncedSave -> T < due tm)
                      (queue (loop m))).
  assert (HP : P (fire run_cb (List.length (queue (loop w))) T w)).
  { apply (fire_invariant run_cb P); [|split; [reflexivity|exact Hall]].
    intros m tm r [Hw Hq] E Hd. apply pop_next_In in E.
    destruct E as [Hin Hr]. rewrite Forall_forall in Hq. split; simpl.
    - destruct (cb tm) eqn:Ec; simpl; try exact Hw.
      specialize (Hq tm Hin Ec). lia.
    - rewrite Forall_forall. intros x Hx. apply Hq, Hr, Hx. }
  apply HP.
Qed.

Lemma save_when_ready (now : Z) (s : State) i snap :
  canvasId s = Some i -> i <> EmptyString ->
  currentSnapshot s = Some snap -> isLoading s = false ->
  save now s = set_written (written s ++ [record_of i snap now s]) s.
Proof.
  intros Hi Hne Hs Hl. unfold save, save_guard. rewrite Hi, Hs, Hl.
  destruct i; [contradiction|]. reflexivity.
Qed.

Lemma save_when_blocked (now : Z) (s : State) :
  truthy (canvasId s) = false \/ currentSnapshot s = None
  \/ isLoading s = true ->
  save now s = s.
Proof.
  intros H. unfold save.
  assert (G : save_guard s = true).
  { unfold save_guard.
    destruct (truthy (canvasId s)), (currentSnapshot s), (isLoading s);
      simpl; try reflexivity; destruct H as [H|[H|H]]; discriminate. }
  rewrite G. reflexivity.
Qed.

(** [forceSave()] writes at once and unschedules: in a world whose timers
    are in order, no debounced save is left pending, the pending snapshot
    (if the session has an id and no load is going on) is written with the
    current time, the timer of 50 is set, and nothing more is written as
    time passes. *)
Theorem forceSave_writes_now_and_unschedules (w : World) :
  well_timed w ->
  let w' := forceSave w in
  scheduled_saves w' = [] /\
  In (mkTimer (fresh (loop w)) (clock (loop w) + 50) GraceElapsed)
     (queue (loop w')) /\
  (forall i snap,
     canvasId (app w) = Some i -> i <> EmptyString ->
     currentSnapshot (app w) = Some snap -> isLoading (app w) = false ->
     written (app w')
     = written (app w) ++ [record_of i snap (clock (loop w)) (app w)]) /\
  forall T, written (app (tick T w')) = written (app w').
Proof.
  intros H w'.
  pose proof (clear_held_no_save _ _ H) as Hn.
  assert (Hq : queue (loop w')
               = queue (clearTimeout (timeoutId (app w)) (loop w))
                 ++ [mkTimer (fresh (loop w)) (clock (loop w) + 50)
                       GraceElapsed]).
  { unfold w', forceSave, Debounce.cancel, setTimeout. simpl.
    destruct (timeoutId (app w)); reflexivity. }
  assert (Hall : Forall (fun tm => cb tm <> DebouncedSave) (queue (loop w'))).
  { rewrite Hq. apply Forall_app. split; [exact Hn|].
    constructor; [discriminate|constructor]. }
  split; [apply no_save_filter, Hall|].
  split; [rewrite Hq; apply in_or_app; right; left; reflexivity|].
  split.
  - intros i snap Hi Hne Hs Hl. unfold w', forceSave, Debounce.cancel. simpl.
    rewrite clearTimeout_clock.
    rewrite (save_when_ready _ _ i snap Hi Hne Hs Hl). reflexivity.
  - intros T. apply tick_no_save_due. eapply Forall_impl; [|exact Hall].
    simpl. intros tm Hc Hd. contradiction.
Qed.

(** A save that comes due while a load is going on is dropped for good:
    with the lock held until after [T] and the scheduled save due by [T],
    nothing is written by [T], and nothing later either, however long one
    waits. *)
Theorem save_due_while_loading_is_dropped (w : World) (T : Z) :
  isLoading (app w) = true ->
  Forall (fun tm => cb tm = ReleaseLock -> T < due tm) (queue (loop w)) ->
  Forall (fun tm => cb tm = DebouncedSave -> due tm <= T) (queue (loop w)) ->
  forall T', written (app (tick T' (tick T w))) = written (app w).
Proof.
  intros Hl Hrel Hsave T'.
  pose (P := fun m : World =>
               isLoading (app m) = true /\
               written (app m) = written (app w) /\
               Forall (fun tm => cb tm = ReleaseLock -> T < due tm)
                      (queue (loop m)) /\
               Forall (fun tm => cb tm = DebouncedSave -> due tm <= T)
                      (queue (loop m))).
  assert (HP : P (fire run_cb (List.length (queue (loop w))) T w)).
  { apply (fire_invariant run_cb P); [|repeat split; assumption].
    intros m tm r (Hm & Hw & Hr & Hs) E Hd. apply pop_next_In in E.
    destruct E as [Hin Hsub]. rewrite Forall_forall in Hr, Hs.
    split; [|split; [|split]]; simpl.
    - destruct (cb tm) eqn:Ec; simpl.
      + rewrite save_when_blocked by auto. exact Hm.
      + specialize (Hr tm Hin Ec). lia.
      + exact Hm.
    - destruct (cb tm) eqn:Ec; simpl.
      + rewrite save_when_blocked by auto. exact Hw.
      + specialize (Hr tm Hin Ec). lia.
      + exact Hw.
    - rewrite Forall_forall. intros x Hx. apply Hr, Hsub, Hx.
    - rewrite Forall_forall. intros x Hx. apply Hs, Hsub, Hx. }
  pose proof (fire_all_due run_cb (List.length (queue (loop w))) T w
                (Nat.le_refl _)) as Hdue.
  destruct HP as (_ & Hw & _ & Hs).
  rewrite tick_no_save_due.
  - unfold tick, advance. simpl. exact Hw.
  - unfold tick, advance. simpl. rewrite Forall_forall in *.
    intros tm Hin Hc. specialize (Hdue tm Hin). specialize (Hs tm Hin Hc).
    lia.
Qed.
Lemma save_settled_snapshot (o : WriteOutcome) (s : State) :
  currentSnapshot (save_settled o s) = currentSnapshot s.
Proof.
  destruct s as [? ? ? ? [h|] ? ? ? ? ? ?]; destruct o as [|e]; simpl;
    try destruct (h e); reflexivity.
Qed.

Lemma step_without_id (w : World) (ev : Event) :
  truthy (canvasId (app w)) = false -> keeps_id ev ->
  truthy (canvasId (app (step w ev))) = false /\
  written (app (step w ev)) = written (app w).
Proof.
  intros H Hev. destruct ev as [[id name|h|s|s|id|name g| |T]|o|o];
    simpl in Hev; try contradiction.
  - auto.
  - unfold step, act, onStateChange. destruct (isLoading (app w)); [auto|].
    rewrite H. auto.
  - unfold step, act, updateSnapshot, onStateChange. simpl.
    destruct (isLoading (app w)); [auto|]. rewrite H. auto.
  - auto.
  - unfold step, act, forceSave. simpl. rewrite save_when_blocked by auto.
    auto.
  - simpl. apply (tick_state_invariant
                    (fun s => truthy (canvasId s) = false /\
                              written s = written (app w))); auto.
    intros now s [H1 H2]. rewrite save_when_blocked by auto. auto.
  - destruct o; [contradiction|auto|auto].
  - unfold step, on_app. simpl.
    destruct (save_settled_frame o (app w)) as (E1 & _ & E2).
    rewrite E1, E2. auto.
Qed.

Lemma step_without_snapshot (w : World) (ev : Event) :
  currentSnapshot (app w) = None -> brings_no_snapshot ev ->
  currentSnapshot (app (step w ev)) = None /\
  written (app (step w ev)) = written (app w).
Proof.
  intros H Hev. destruct ev as [[id name|h|s|s|id|name g| |T]|o|o];
    simpl in Hev; try contradiction.
  - unfold step, act, setCanvasId, on_app.
    destruct name as [n|]; [destruct (truthy (Some n))|]; simpl; auto.
  - auto.
  - auto.
  - unfold step, act, createNewCanvas. simpl. auto.
  - unfold step, act, forceSave. simpl. rewrite save_when_blocked by auto.
    auto.
  - simpl. apply (tick_state_invariant
                    (fun s => currentSnapshot s = None /\
                              written s = written (app w))); auto.
    intros now s [H1 H2]. rewrite save_when_blocked by auto. auto.
  - destruct o; [contradiction|auto|auto].
  - unfold step, on_app. simpl.
    destruct (save_settled_frame o (app w)) as (_ & _ & E2).
    rewrite save_settled_snapshot, E2. auto.
Qed.

(** No session, no write.  While the canvas id is missing or empty
    nothing is written, whatever snapshots arrive, until [setCanvasId],
    [createNewCanvas] or a loaded record brings an id; and while no
    snapshot is pending nothing is written until one arrives, so
    [createNewCanvas] drops the save scheduled for the canvas before. *)
Theorem no_session_no_write (w : World) (evs : list Event) :
  (truthy (canvasId (app w)) = false -> Forall keeps_id evs ->
   written (app (run evs w)) = written (app w)) /\
  (currentSnapshot (app w) = None -> Forall brings_no_snapshot evs ->
   written (app (run evs w)) = written (app w)) /\
  (forall name generated,
     currentSnapshot (app (fst (createNewCanvas name generated w))) = None /\
     written (app (fst (createNewCanvas name generated w)))
     = written (app w)).
Proof.
  split; [|split].
  - revert w. induction evs as [|ev evs IH]; intros w H Hall; [reflexivity|].
    inversion Hall as [|? ? Hev Hrest]; subst. simpl.
    destruct (step_without_id w ev H Hev) as [E1 E2].
    rewrite IH by assumption. exact E2.
  - revert w. induction evs as [|ev evs IH]; intros w H Hall; [reflexivity|].
    inversion Hall as [|? ? Hev Hrest]; subst. simpl.
    destruct (step_without_snapshot w ev H Hev) as [E1 E2].
    rewrite IH by assumption. exact E2.
  - intros name generated. split; reflexivity.
Qed.

Lemma tick_unlocked_or_release (T T' : Z) (w : World) :
  isLoading (app w) = false \/
  Exists (fun tm => cb tm = ReleaseLock /\ due tm <= T) (queue (loop w)) ->
  isLoading (app (tick T' w)) = false \/
  Exists (fun tm => cb tm = ReleaseLock /\ due tm <= T)
         (queue (loop (tick T' w))).
Proof.
  intros H. unfold tick, advance. simpl.
  apply (fire_invariant run_cb
           (fun m : World =>
              isLoading (app m) = false \/
              Exists (fun tm => cb tm = ReleaseLock /\ due tm <= T)
                     (queue (loop m)))); [|exact H].
  intros m tm r [Hm|Hm] E _.
  - left. simpl. apply run_cb_keeps_unlocked, Hm.
  - apply pop_next_perm in E.
    apply (Permutation_Exists E) in Hm. apply Exists_cons in Hm.
    destruct Hm as [[Hcb _]|Hm]; [left|right; exact Hm].
    simpl. rewrite Hcb. reflexivity.
Qed.

Lemma Exists_clear_held (held : option nat) (l : Loop Callback) T :
  timed l held ->
  Exists (fun tm => cb tm = ReleaseLock /\ due tm <= T) (queue l) ->
  Exists (fun tm => cb tm = ReleaseLock /\ due tm <= T)
         (queue (clearTimeout held l)).
Proof.
  intros Ht Hex. rewrite Exists_exists in *.
  destruct Hex as (tm & Hin & Hc & Hd). exists tm.
  split; [|auto]. apply clear_held_keeps_others; auto.
  rewrite Hc. discriminate.
Qed.

Lemma step_unlocked_or_release (T : Z) (w : World) (ev : Event) :
  well_timed w -> starts_no_load ev ->
  isLoading (app w) = false \/
  Exists (fun tm => cb tm = ReleaseLock /\ due tm <= T) (queue (loop w)) ->
  isLoading (app (step w ev)) = false \/
  Exists (fun tm => cb tm = ReleaseLock /\ due tm <= T)
         (queue (loop (step w ev))).
Proof.
  intros Hw Hev H.
  destruct ev as [[id name|h|s|s|id|name g| |T']|o|o];
    simpl in Hev; try contradiction.
  - unfold step, act, setCanvasId, on_app.
    destruct name as [n|]; [destruct (truthy (Some n))|]; exact H.
  - exact H.
  - unfold step, act, onStateChange. destruct (isLoading (app w)) eqn:El.
    + destruct H as [H|H]; [discriminate|right; exact H].
    + destruct (truthy (canvasId (app w))); left; simpl; exact El.
  - unfold step, act, updateSnapshot, onStateChange. simpl.
    destruct (isLoading (app w)) eqn:El.
    + destruct H as [H|H]; [discriminate|right; exact H].
    + destruct (truthy (canvasId (app w))); left; simpl; exact El.
  - exact H.
  - unfold step, act, forceSave, Debounce.cancel, setTimeout. simpl.
    destruct (save_frame (clock (clearTimeout (timeoutId (app w)) (loop w)))
                (app w)) as (_ & E & _).
    rewrite E. destruct H as [H|H]; [left; exact H|right].
    apply Exists_app. left. apply Exists_clear_held; assumption.
  - apply tick_unlocked_or_release, H.
  - unfold step, loadCanvas_settled, release_later, setTimeout.
    destruct o; simpl; (destruct H as [H|H]; [left; exact H|right]);
      apply Exists_app; left; exact H.
  - unfold step, on_app. simpl.
    assert (E : isLoading (save_settled o (app w)) = isLoading (app w)).
    { destruct (app w) as [? ? ? ? [h|] ? ? ? ? ? ?]; destruct o as [|e];
        simpl; try destruct (h e); reflexivity. }
    rewrite E. exact H.
Qed.

(** The lock opens 100 after a load has settled, whatever the program
    does in between short of starting another load: the release timer set
    by [loadCanvas] is cancelled by nothing. *)
Theorem lock_opens_after_settle_delay
  (w : World) (o : ReadOutcome AppState SerializedNode)
  (evs : list Event) (T : Z) :
  well_timed w ->
  Forall starts_no_load evs ->
  clock (loop w) + 100 <= T ->
  isLoading
    (app (run (evs ++ [Does (TimePasses T)]) (fst (loadCanvas_settled o w))))
  = false.
Proof.
  intros Hw Hall HT. unfold run. rewrite fold_left_app. simpl.
  fold (run evs (fst (loadCanvas_settled o w))).
  assert (H0 : well_timed (fst (loadCanvas_settled o w)))
    by (apply (step_well_timed w (ReadSettled o)), Hw).
  assert (H1 : isLoading (app (fst (loadCanvas_settled o w))) = false \/
               Exists (fun tm => cb tm = ReleaseLock /\ due tm <= T)
                      (queue (loop (fst (loadCanvas_settled o w))))).
  { right. unfold loadCanvas_settled, release_later, setTimeout.
    destruct o; simpl; apply Exists_app; right; constructor; simpl;
      (split; [reflexivity|lia]). }
  revert H0 H1. generalize (fst (loadCanvas_settled o w)). clear Hw.
  induction Hall as [|ev evs Hev _ IH]; intros w' H0 H1; simpl.
  - destruct H1 as [H1|H1]; [|apply tick_releases, H1].
    apply (tick_state_invariant (fun s => isLoading s = false)); auto.
    intros now s Hs. destruct (save_frame now s) as (_ & E & _). congruence.
  - apply IH.
    + apply step_well_timed, H0.
    + apply step_unlocked_or_release; assumption.
Qed.
Lemma tick_session (T : Z) (w : World) :
  session (app (tick T w)) = session (app w).
Proof.
  apply (tick_state_invariant (fun s => session s = session (app w)));
    [| |reflexivity].
  - intros now s H. destruct (save_frame now s) as (E & _). congruence.
  - intros s H. exact H.
Qed.

Lemma tick_stays_unlocked (T : Z) (w : World) :
  isLoading (app w) = false -> isLoading (app (tick T w)) = false.
Proof.
  apply (tick_state_invariant (fun s => isLoading s = false)); auto.
  intros now s Hs. destruct (save_frame now s) as (_ & E & _). congruence.
Qed.

Lemma tick_clock (T : Z) (w : World) :
  clock (loop (tick T w)) = Z.max (clock (loop w)) T.
Proof.
  unfold tick, advance. simpl.
  pose proof (fire_clock_mono run_cb (List.length (queue (loop w))) T w).
  pose proof (fire_clock_le run_cb (List.length (queue (loop w))) T w).
  lia.
Qed.

(** Loading a canvas and forcing a save once the lock is open writes the
    loaded record back, with nothing changed but [updatedAt]. *)
Theorem load_then_forceSave_writes_record_back
  (w : World) (data : CanvasData.t AppState SerializedNode) (T : Z) :
  CanvasData.id data <> EmptyString ->
  clock (loop w) + 100 <= T ->
  let w1 := tick T (fst (loadCanvas_settled (Found data) w)) in
  written (app (forceSave w1))
  = written (app w1)
    ++ [CanvasData.mk (CanvasData.id data) (CanvasData.name data)
          (CanvasData.nodes data) (CanvasData.appState data)
          (CanvasData.createdAt data) (clock (loop w1))].
Proof.
  intros Hne HT w1.
  assert (Hs : session (app w1)
               = (Some (CanvasData.id data), CanvasData.name data,
                  CanvasData.createdAt data,
                  Some (mkSnapshot (CanvasData.appState data)
                                   (CanvasData.nodes data))))
    by (unfold w1; rewrite tick_session; reflexivity).
  assert (Hl : isLoading (app w1) = false).
  { unfold w1. apply tick_releases.
    unfold loadCanvas_settled, release_later, setTimeout. simpl.
    apply Exists_app. right. constructor. simpl. split; [reflexivity|lia]. }
  clearbody w1. unfold session in Hs. inversion Hs as [[Hi Hn Hc Hp]].
  unfold forceSave, Debounce.cancel. simpl. rewrite clearTimeout_clock.
  rewrite (save_when_ready _ _ _ _ Hi Hne Hp Hl). simpl.
  unfold record_of. rewrite Hn, Hc. reflexivity.
Qed.

Lemma NoDup_map_inj {X Y : Type} (f : X -> Y) (l : list X) a b :
  NoDup (map f l) -> In a l -> In b l -> f a = f b -> a = b.
Proof.
  induction l as [|x l IH]; simpl; intros Hn H1 H2 E; [contradiction|].
  inversion Hn as [|? ? Hx Hl]; subst.
  destruct H1 as [H1|H1], H2 as [H2|H2]; subst; auto.
  - exfalso. apply Hx. rewrite E. apply in_map, H2.
  - exfalso. apply Hx. rewrite <- E. apply in_map, H1.
Qed.

(** In a well-timed world the debounced save is one timer. *)
Lemma the_save (held : option nat) (l : Loop Callback) tm tm' :
  timed l held -> In tm (queue l) -> In tm' (queue l) ->
  cb tm = DebouncedSave -> cb tm' = DebouncedSave -> tm = tm'.
Proof.
  intros (H1 & _ & _ & H4) I I' C C'. rewrite Forall_forall in H4.
  apply (NoDup_map_inj tid (queue l)); auto.
  apply (H4 tm I) in C. apply (H4 tm' I') in C'. congruence.
Qed.

Lemma onStateChange_schedules (w : World) (s : Snapshot) i :
  well_timed w -> isLoading (app w) = false ->
  canvasId (app w) = Some i -> i <> EmptyString ->
  awaiting (onStateChange s w) i (clock (loop w)) s /\
  written (app (onStateChange s w)) = written (app w) /\
  canvasName (app (onStateChange s w)) = canvasName (app w) /\
  createdAt (app (onStateChange s w)) = createdAt (app w).
Proof.
  intros Hw Hl Hi Hne.
  assert (E : onStateChange s w
              = debouncedSave (on_app (set_currentSnapshot (Some s)) w)).
  { unfold onStateChange. rewrite Hl, Hi. destruct i; [contradiction|].
    reflexivity. }
  rewrite E.
  assert (Hw' : well_timed (on_app (set_currentSnapshot (Some s)) w))
    by exact Hw.
  split; [|split; [|split]]; try reflexivity.
  split; [apply debouncedSave_well_timed, Hw'|].
  split; [exact Hl|]. split; [exact Hi|]. split; [reflexivity|].
  split.
  - unfold debouncedSave, Debounce.schedule, setTimeout. simpl.
    apply clearTimeout_clock.
  - unfold save_pending, debouncedSave, Debounce.schedule, setTimeout. simpl.
    eexists. split; [apply in_or_app; right; left; reflexivity|].
    simpl. rewrite clearTimeout_clock. auto.
Qed.

Lemma tick_before_save (w : World) (d T : Z) :
  well_timed w -> save_pending w d -> T < d ->
  save_pending (tick T w) d /\
  written (app (tick T w)) = written (app w).
Proof.
  intros Hw (tm & Hin & Hc & Hd) HT. split.
  - exists tm. split; [|auto]. unfold tick, advance. simpl.
    apply (fire_invariant run_cb (fun m : World => In tm (queue (loop m))));
      [|exact Hin].
    intros m tm' r Hm E Hd'. simpl. apply pop_next_perm in E.
    apply (Permutation_in _ E) in Hm. destruct Hm as [Hm|Hm]; [|exact Hm].
    subst. lia.
  - apply tick_no_save_due. rewrite Forall_forall. intros tm' Hin' Hc'.
    rewrite (the_save _ _ tm' tm Hw Hin' Hin Hc' Hc). lia.
Qed.

Lemma tick_fires_save (w : World) (d T : Z) i snap :
  well_timed w -> save_pending w d -> clock (loop w) <= d -> d <= T ->
  isLoading (app w) = false -> canvasId (app w) = Some i ->
  i <> EmptyString -> currentSnapshot (app w) = Some snap ->
  written (app (tick T w))
  = written (app w) ++ [record_of i snap d (app w)].
Proof.
  intros Hw (tm & Hin & Hc & Hd) Hclock HT Hl Hi Hne Hs.
  pose (J := fun m : World =>
      session (app m) = session (app w) /\ isLoading (app m) = false /\
      well_timed m /\
      ((In tm (queue (loop m)) /\ written (app m) = written (app w) /\
        clock (loop m) <= d) \/
       (Forall (fun x => cb x <> DebouncedSave) (queue (loop m)) /\
        written (app m) = written (app w) ++ [record_of i snap d (app w)]))).
  assert (HJ : J (fire run_cb (List.length (queue (loop w))) T w)).
  { apply (fire_invariant run_cb J).
    2:{ split; [reflexivity|]. split; [exact Hl|]. split; [exact Hw|].
        left. auto. }
    intros m tm' r (Hses & Hml & Hmw & Hcase) E Hd'.
    pose proof (pop_next_perm _ _ _ E) as Hperm.
    pose proof (pop_next_least _ _ _ E) as Hleast.
    assert (Hmw' : well_timed (fire_one run_cb tm' r m)).
    { unfold well_timed, fire_one. simpl. rewrite run_cb_timeoutId.
      eapply timed_pop; eassumption. }
    assert (Hses' : session (app (fire_one run_cb tm' r m))
                    = session (app w)).
    { simpl. rewrite <- Hses. destruct (cb tm'); simpl;
        [apply save_frame|reflexivity|reflexivity]. }
    assert (Hml' : isLoading (app (fire_one run_cb tm' r m)) = false)
      by (simpl; apply run_cb_keeps_unlocked, Hml).
    split; [exact Hses'|]. split; [exact Hml'|]. split; [exact Hmw'|].
    unfold session in Hses. inversion Hses as [[Ei En Ec Ep]].
    destruct Hcase as [(Hq & Hwr & Hck)|(Hq & Hwr)].
    - assert (Hin' : In tm' (queue (loop m)))
        by (eapply Permutation_in; [symmetry; exact Hperm|left; reflexivity]).
      destruct (cb tm') eqn:Ec'.
      + assert (tm' = tm) by exact (the_save _ _ tm' tm Hmw Hin' Hq Ec' Hc).
        subst tm'.
        right. split.
        * destruct Hmw as (Hnd & _ & _ & Hiff).
          apply (Permutation_map tid) in Hperm.
          apply (Permutation_NoDup Hperm) in Hnd. simpl in Hnd.
          inversion Hnd as [|? ? Hnotin _]; subst.
          rewrite Forall_forall in *. intros x Hx Hcx.
          apply Hnotin. apply in_map_iff. exists x. split; [|exact Hx].
          assert (Hxq : In x (queue (loop m)))
            by (eapply Permutation_in;
                [symmetry; apply pop_next_perm; exact E|right; exact Hx]).
          apply (Hiff x Hxq) in Hcx. apply (Hiff tm Hq) in Hc. congruence.
        * simpl. rewrite Ec'. simpl. rewrite Z.max_r by lia. rewrite Hd.
          rewrite Hi in Ei. rewrite Hs in Ep.
          rewrite (save_when_ready _ _ i snap Ei Hne Ep Hml). simpl.
          rewrite Hwr. unfold record_of. rewrite En, Ec. reflexivity.
      + left. split; [|split].
        * apply (Permutation_in _ Hperm) in Hq.
          destruct Hq as [Hq|Hq]; [subst; congruence|exact Hq].
        * simpl. rewrite Ec'. exact Hwr.
        * simpl. rewrite Forall_forall in Hleast. specialize (Hleast tm Hq).
          lia.
      + left. split; [|split].
        * apply (Permutation_in _ Hperm) in Hq.
          destruct Hq as [Hq|Hq]; [subst; congruence|exact Hq].
        * simpl. rewrite Ec'. exact Hwr.
        * simpl. rewrite Forall_forall in Hleast. specialize (Hleast tm Hq).
          lia.
    - right. rewrite Forall_forall in Hq. split.
      + rewrite Forall_forall. intros x Hx. apply Hq.
        eapply Permutation_in; [symmetry; exact Hperm|right; exact Hx].
      + assert (Hin' : In tm' (queue (loop m)))
          by (eapply Permutation_in;
              [symmetry; exact Hperm|left; reflexivity]).
        specialize (Hq tm' Hin'). simpl.
        destruct (cb tm'); [contradiction|exact Hwr|exact Hwr]. }
  pose proof (fire_all_due run_cb (List.length (queue (loop w))) T w
                (Nat.le_refl _)) as Hdue.
  unfold tick, advance. simpl.
  destruct HJ as (_ & _ & _ & [(Hq & _)|(_ & Hwr)]); [|exact Hwr].
  exfalso. rewrite Forall_forall in Hdue. specialize (Hdue tm Hq). lia.
Qed.
Lemma session_fields (s s' : State) :
  session s = session s' ->
  canvasId s = canvasId s' /\ canvasName s = canvasName s' /\
  createdAt s = createdAt s' /\ currentSnapshot s = currentSnapshot s'.
Proof. unfold session. intros H. inversion H. auto. Qed.

Lemma change_at_awaiting (w : World) i t s t' s' :
  i <> EmptyString ->
  awaiting w i t s -> t <= t' < t + 1000 ->
  awaiting (change_at (t', s') w) i t' s' /\
  written (app (change_at (t', s') w)) = written (app w) /\
  canvasName (app (change_at (t', s') w)) = canvasName (app w) /\
  createdAt (app (change_at (t', s') w)) = createdAt (app w).
Proof.
  intros Hne (Hw & Hl & Hi & Hs & Hc & Hp) Ht.
  destruct (tick_before_save w (t + 1000) t' Hw Hp) as [_ Hwr]; [lia|].
  destruct (session_fields _ _ (tick_session t' w)) as (Ei & En & Ec & _).
  assert (Hck : clock (loop (tick t' w)) = t')
    by (rewrite tick_clock; lia).
  destruct (onStateChange_schedules (tick t' w) s' i)
    as (Ha & Hwr' & Hn' & Hc');
    [apply tick_well_timed, Hw|apply tick_stays_unlocked, Hl
    |congruence|exact Hne|].
  unfold change_at; cbn [fst snd]. rewrite Hck in Ha.
  split; [exact Ha|]. split; [congruence|]. split; congruence.
Qed.

Lemma changes_burst (cs : list (Z * Snapshot)) :
  forall (w : World) i t s,
    i <> EmptyString ->
    awaiting w i t s ->
    Debounce.burst 1000 t (map fst cs) ->
    let lc := last cs (t, s) in
    awaiting (changes cs w) i (fst lc) (snd lc) /\
    written (app (changes cs w)) = written (app w) /\
    canvasName (app (changes cs w)) = canvasName (app w) /\
    createdAt (app (changes cs w)) = createdAt (app w).
Proof.
  induction cs as [|[t' s'] cs IH]; intros w i t s Hne Ha Hb.
  - simpl. auto.
  - simpl in Hb. destruct Hb as [Ht Hb].
    destruct (change_at_awaiting w i t s t' s' Hne Ha Ht)
      as (Ha' & Hw' & Hn' & Hc').
    specialize (IH (change_at (t', s') w) i t' s' Hne Ha' Hb).
    rewrite last_cons. cbn zeta in IH |- *.
    change (changes ((t', s') :: cs) w)
      with (changes cs (change_at (t', s') w)).
    destruct IH as (I1 & I2 & I3 & I4).
    split; [exact I1|]. split; [congruence|]. split; congruence.
Qed.

(** A burst of changes gives one write.  On a canvas, with no load going
    on, changes that follow one another by less than 1000 write nothing
    until 1000 after the last one, and then exactly one record: the last
    snapshot, under the session's id, name and [createdAt], with that
    time as [updatedAt]. *)
Theorem changes_coalesce_into_one_write
  (w : World) (c : Z * Snapshot) (cs : list (Z * Snapshot)) (i : string) :
  well_timed w ->
  isLoading (app w) = false ->
  canvasId (app w) = Some i -> i <> EmptyString ->
  clock (loop w) <= fst c ->
  Debounce.burst 1000 (fst c) (map fst cs) ->
  let w0 := tick (fst c) w in
  let lc := last cs c in
  let w' := changes (c :: cs) w in
  forall T,
    (T < fst lc + 1000 ->
     written (app (tick T w')) = written (app w0)) /\
    (fst lc + 1000 <= T ->
     written (app (tick T w'))
     = written (app w0)
       ++ [record_of i (snd lc) (fst lc + 1000) (app w)]).
Proof.
  intros Hw Hl Hi Hne Hc Hb w0 lc w' T. destruct c as [t1 s1].
  cbn [fst snd] in *.
  destruct (session_fields _ _ (tick_session t1 w)) as (Ei & En & Ec & _).
  fold w0 in Ei, En, Ec.
  assert (Hck : clock (loop w0) = t1)
    by (unfold w0; rewrite tick_clock; lia).
  destruct (onStateChange_schedules w0 s1 i)
    as (Ha & Hwr & Hn & Hcr);
    [apply tick_well_timed, Hw|apply tick_stays_unlocked, Hl
    |congruence|exact Hne|].
  rewrite Hck in Ha.
  change (onStateChange s1 w0) with (change_at (t1, s1) w) in *.
  destruct (changes_burst cs (change_at (t1, s1) w) i t1 s1 Hne Ha Hb)
    as (Hb1 & Hb2 & Hb3 & Hb4).
  fold lc in Hb1.
  change (changes cs (change_at (t1, s1) w)) with w' in *.
  destruct Hb1 as (Hw' & Hl' & Hi' & Hs' & Hc' & Hp').
  split; intros HT.
  - destruct (tick_before_save w' _ T Hw' Hp' HT) as [_ E]. congruence.
  - rewrite (tick_fires_save w' (fst lc + 1000) T i (snd lc)); auto;
      [|lia].
    unfold record_of. rewrite Hb2, Hwr, Hb3, Hn, En, Hb4, Hcr, Ec.
    reflexivity.
Qed.
End LifecycleFacts.

(** ** From an edit to the store *)

Section SystemFacts.
Import Timers PersistenceManager Lifecycle Backed.
Context {AppState SerializedNode : Type}.
Local Abbreviation World := (World AppState SerializedNode).
Local Abbreviation State := (State AppState SerializedNode).
Local Abbreviation Snapshot := (Snapshot AppState SerializedNode).
Local Abbreviation System := (System AppState SerializedNode).

Lemma onStateChange_unlocked (w : World) (s : Snapshot) i :
  isLoading (app w) = false -> canvasId (app w) = Some i ->
  i <> EmptyString ->
  onStateChange s w
  = debouncedSave (on_app (set_currentSnapshot (Some s)) w).
Proof.
  intros Hl Hi Hne. unfold onStateChange. rewrite Hl, Hi.
  destruct i; [contradiction|]. reflexivity.
Qed.

Lemma save_settled_reports (e : Error) (s : State) handler :
  onSaveError s = Some handler ->
  reported (save_settled (WriteFailed e) s) = reported s ++ [e].
Proof.
  destruct s as [? ? ? ? oh ? ? ? ? ? ?]. simpl. intros H. subst oh.
  destruct (handler e); reflexivity.
Qed.

Lemma tick_handler (T : Z) (w : World) :
  onSaveError (app (tick T w)) = onSaveError (app w) /\
  reported (app (tick T w)) = reported (app w).
Proof.
  apply (tick_state_invariant
           (fun s => onSaveError s = onSaveError (app w) /\
                     reported s = reported (app w))); auto.
  intros now s [H1 H2].
  destruct (save_frame now s) as (_ & _ & E1 & _ & _ & E2 & _).
  split; congruence.
Qed.

(** From an edit to the store: a change notified on a canvas, a second
    of quiet, and the answer of the storage.  When the write goes through
    the store holds, under the id of the session, the snapshot of the
    change with 1000 after it as [updatedAt], and [loadCanvas] returns it;
    when it fails the store is as before and a registered handler is
    given the error.  No request is left under way. *)
Theorem edit_reaches_store
  (b : System) (s : Snapshot) (T : Z) (failure : option Error) (i : string) :
  requests b = [] ->
  well_timed (world b) ->
  isLoading (app (world b)) = false ->
  canvasId (app (world b)) = Some i -> i <> EmptyString ->
  clock (loop (world b)) + 1000 <= T ->
  let r := record_of i s (clock (loop (world b)) + 1000) (app (world b)) in
  let b' := system_run [Act (CallOnStateChange s); Act (TimePasses T);
                        Settle failure] b in
  requests b' = [] /\
  store b' = fst (IndexedDbStorageService.saveCanvas r failure (store b)) /\
  (failure = None ->
   IndexedDbStorageService.loadCanvas i None (store b')
   = Resolved (Some r)) /\
  (forall e handler,
     failure = Some e -> onSaveError (app (world b)) = Some handler ->
     reported (app (world b')) = reported (app (world b)) ++ [e]).
Proof.
  intros Hq Hw Hl Hi Hne HT r b'.
  destruct (onStateChange_schedules (world b) s i Hw Hl Hi Hne)
    as ((Hw1 & Hl1 & Hi1 & Hs1 & Hc1 & Hp1) & Hwr1 & Hn1 & Hcr1).
  pose proof (tick_fires_save (onStateChange s (world b))
                (clock (loop (world b)) + 1000) T i s Hw1 Hp1) as Hfire.
  rewrite Hc1 in Hfire.
  specialize (Hfire ltac:(lia) HT Hl1 Hi1 Hne Hs1).
  assert (Hr : record_of i s (clock (loop (world b)) + 1000)
                 (app (onStateChange s (world b))) = r).
  { unfold r, record_of. rewrite Hn1, Hcr1. reflexivity. }
  rewrite Hr, Hwr1 in Hfire.
  assert (E1 : system_step b (Act (CallOnStateChange s))
               = mkSystem (onStateChange s (world b)) (store b) []).
  { unfold system_step, requests_of. cbn [world store requests].
    change (act (world b) (CallOnStateChange s))
      with (onStateChange s (world b)).
    rewrite Hq, Hwr1, skipn_all. reflexivity. }
  assert (E2 : system_step
                 (mkSystem (onStateChange s (world b)) (store b) [])
                 (Act (TimePasses T))
               = mkSystem (tick T (onStateChange s (world b))) (store b)
                          [Put r]).
  { unfold system_step, requests_of. cbn [world store requests].
    change (act (onStateChange s (world b)) (TimePasses T))
      with (tick T (onStateChange s (world b))).
    rewrite Hfire, Hwr1, skipn_length_app. reflexivity. }
  assert (Hb' : b' = system_step
                       (mkSystem (tick T (onStateChange s (world b)))
                                 (store b) [Put r])
                       (Settle failure)).
  { unfold b', system_run. cbn [fold_left]. rewrite E1, E2. reflexivity. }
  rewrite Hb'. unfold system_step. cbn [requests store world].
  destruct failure as [e|];
    unfold IndexedDbStorageService.saveCanvas;
    cbn [requests store world fst snd step on_app app loop].
  - split; [reflexivity|]. split; [reflexivity|]. split; [discriminate|].
    intros e' h Ee Hh. inversion Ee; subst e'.
    destruct (tick_handler T (onStateChange s (world b))) as [F1 F2].
    assert (G : onSaveError (app (onStateChange s (world b)))
                = onSaveError (app (world b)) /\
                reported (app (onStateChange s (world b)))
                = reported (app (world b))).
    { rewrite (onStateChange_unlocked _ _ i Hl Hi Hne). split; reflexivity. }
    destruct G as [G1 G2].
    rewrite (save_settled_reports e _ h) by congruence. congruence.
  - split; [reflexivity|]. split; [reflexivity|].
    split; [|discriminate]. intros _.
    unfold IndexedDbStorageService.loadCanvas.
    replace i with (CanvasData.id r) by reflexivity.
    rewrite get_put_same. reflexivity.
Qed.
End SystemFacts.

(** ** Ids and names of the records written *)

Section NamingFacts.
Import Timers PersistenceManager Lifecycle.
Context {AppState SerializedNode : Type}.
Local Abbreviation World := (World AppState SerializedNode).
Local Abbreviation State := (State AppState SerializedNode).
Local Abbreviation Event := (Event AppState SerializedNode).

Lemma save_ids (now : Z) (s : State) :
  Forall (fun r => CanvasData.id r <> EmptyString) (written s) ->
  Forall (fun r => CanvasData.id r <> EmptyString) (written (save now s)).
Proof.
  intros H.
  destruct (save_cases now s) as [[_ E]|(i & snap & _ & Hne & _ & _ & E)];
    rewrite E; [exact H|]. simpl. apply Forall_app. split; [exact H|].
  constructor; [exact Hne|constructor].
Qed.

Lemma save_names (now : Z) (s : State) :
  canvasName s <> EmptyString /\
  Forall (fun r => CanvasData.name r <> EmptyString) (written s) ->
  canvasName (save now s) <> EmptyString /\
  Forall (fun r => CanvasData.name r <> EmptyString) (written (save now s)).
Proof.
  intros [Hn H].
  destruct (save_cases now s) as [[_ E]|(i & snap & _ & _ & _ & _ & E)];
    rewrite E; [auto|]. simpl. split; [exact Hn|].
  apply Forall_app. split; [exact H|]. constructor; [exact Hn|constructor].
Qed.

Lemma write_settled_keeps (o : WriteOutcome) (s : State) :
  canvasName (save_settled o s) = canvasName s /\
  written (save_settled o s) = written s.
Proof.
  destruct s as [? ? ? ? [h|] ? ? ? ? ? ?]; destruct o as [|e]; simpl;
    try destruct (h e); auto.
Qed.

Lemma step_ids (w : World) (ev : Event) :
  Forall (fun r => CanvasData.id r <> EmptyString) (written (app w)) ->
  Forall (fun r => CanvasData.id r <> EmptyString)
         (written (app (step w ev))).
Proof.
  intros H. destruct ev as [[id name|h|s|s|id|name g| |T]|o|o].
  - unfold step, act, setCanvasId, on_app.
    destruct name as [n|]; [destruct (truthy (Some n))|]; exact H.
  - exact H.
  - unfold step, act, onStateChange. destruct (isLoading (app w)); [exact H|].
    destruct (truthy (canvasId (app w))); exact H.
  - unfold step, act, updateSnapshot, onStateChange. simpl.
    destruct (isLoading (app w)); [exact H|].
    destruct (truthy (canvasId (app w))); exact H.
  - exact H.
  - exact H.
  - unfold step, act, forceSave. simpl. apply save_ids, H.
  - simpl. apply (tick_state_invariant
                    (fun s => Forall (fun r => CanvasData.id r <> EmptyString)
                                     (written s))); auto.
    intros now s. apply save_ids.
  - destruct o; exact H.
  - unfold step, on_app. simpl.
    destruct (write_settled_keeps o (app w)) as [_ E]. rewrite E. exact H.
Qed.

Lemma step_names (w : World) (ev : Event) :
  loads_named ev ->
  canvasName (app w) <> EmptyString /\
  Forall (fun r => CanvasData.name r <> EmptyString) (written (app w)) ->
  canvasName (app (step w ev)) <> EmptyString /\
  Forall (fun r => CanvasData.name r <> EmptyString)
         (written (app (step w ev))).
Proof.
  intros Hev H. destruct ev as [[id name|h|s|s|id|name g| |T]|o|o].
  - unfold step, act, setCanvasId, on_app.
    destruct name as [[|c n]|]; simpl; try exact H.
    split; [discriminate|apply H].
  - exact H.
  - unfold step, act, onStateChange. destruct (isLoading (app w)); [exact H|].
    destruct (truthy (canvasId (app w))); exact H.
  - unfold step, act, updateSnapshot, onStateChange. simpl.
    destruct (isLoading (app w)); [exact H|].
    destruct (truthy (canvasId (app w))); exact H.
  - exact H.
  - unfold step, act, createNewCanvas. simpl.
    split; [|apply H]. destruct name as [[|c n]|]; simpl; discriminate.
  - unfold step, act, forceSave. simpl. apply save_names, H.
  - simpl. apply (tick_state_invariant
                    (fun s => canvasName s <> EmptyString /\
                              Forall (fun r => CanvasData.name r
                                               <> EmptyString)
                                     (written s))); auto.
    intros now s. apply save_names.
  - destruct o; simpl in *; [|exact H|exact H]. split; [exact Hev|apply H].
  - unfold step, on_app. simpl.
    destruct (write_settled_keeps o (app w)) as [E1 E2].
    rewrite E1, E2. exact H.
Qed.

(** No record is ever written under an empty id; and as long as no
    record with an empty name is loaded, none is written with an empty
    name: [setCanvasId] ignores an empty name and [createNewCanvas]
    replaces it by 'Untitled Canvas'. *)
Theorem written_ids_and_names_never_empty (t0 : Z) (evs : list Event) :
  Forall (fun r => CanvasData.id r <> EmptyString)
         (written (app (run evs (init t0)))) /\
  (Forall loads_named evs ->
   Forall (fun r => CanvasData.name r <> EmptyString)
          (written (app (run evs (init t0))))).
Proof.
  split.
  - assert (G : forall w : World,
               Forall (fun r => CanvasData.id r <> EmptyString)
                      (written (app w)) ->
               Forall (fun r => CanvasData.id r <> EmptyString)
                      (written (app (run evs w)))).
    { induction evs as [|ev evs IH]; intros w H; [exact H|].
      simpl. apply IH, step_ids, H. }
    apply G. constructor.
  - intros Hall.
    assert (G : forall w : World,
               canvasName (app w) <> EmptyString /\
               Forall (fun r => CanvasData.name r <> EmptyString)
                      (written (app w)) ->
               canvasName (app (run evs w)) <> EmptyString /\
               Forall (fun r => CanvasData.name r <> EmptyString)
                      (written (app (run evs w)))).
    { induction Hall as [|ev evs Hev _ IH]; intros w H; [exact H|].
      simpl. apply IH, step_names; assumption. }
    apply G. split; [discriminate|constructor].
Qed.
End NamingFacts.

(** ** Calls of the debounced function that are far apart *)

Section SpacedFacts.
Import Timers Debounce.
Context {A U : Type}.
Variable fn : list A -> Z -> U -> U.
Variable ms : Z.

Lemma debounce_tick_clock (T : Z) (m : Coordinator A U) :
  clock (loop (Debounce.tick fn T m)) = Z.max (clock (loop m)) T.
Proof.
  unfold Debounce.tick, advance. simpl.
  pose proof (fire_clock_mono (call_fn fn)
                (List.length (queue (loop m))) T m).
  pose proof (fire_clock_le (call_fn fn)
                (List.length (queue (loop m))) T m).
  lia.
Qed.

Lemma calls_spaced (cs : list (Z * list A)) :
  forall (m : Coordinator A U) t args,
    0 <= ms <= 2147483647 ->
    armed m (t + ms) args -> clock (loop m) = t ->
    spaced ms t (map fst cs) ->
    let lc := last cs (t, args) in
    let m' := calls fn ms cs m in
    armed m' (fst lc + ms) (snd lc) /\ clock (loop m') = fst lc /\
    invoked (app m') ++ [(fst lc + ms, snd lc)]
    = invoked (app m)
      ++ map (fun c => (fst c + ms, snd c)) ((t, args) :: cs).
Proof.
  induction cs as [|[t' args'] cs IH]; intros m t args Hms Ha Hc Hs.
  - simpl. auto.
  - simpl in Hs. destruct Hs as [Ht Hs].
    destruct (tick_late fn m (t + ms) args t' Ha) as (Hq & Hp); [lia|lia|].
    assert (Htr : tracked (Debounce.tick fn t' m))
      by (unfold tracked; rewrite Hq; constructor).
    destruct (debounced_arms ms (Debounce.tick fn t' m) args' Hms Htr)
      as (Ha2 & Hc2 & Hi2 & _).
    assert (Hck : clock (loop (Debounce.tick fn t' m)) = t')
      by (rewrite debounce_tick_clock; lia).
    rewrite Hck in Ha2, Hc2.
    specialize (IH (call_at fn ms (t', args') m) t' args' Hms Ha2 Hc2 Hs).
    rewrite last_cons. cbn zeta in IH |- *.
    change (calls fn ms ((t', args') :: cs) m)
      with (calls fn ms cs (call_at fn ms (t', args') m)).
    destruct IH as (I1 & I2 & I3).
    split; [exact I1|]. split; [exact I2|].
    rewrite I3. unfold call_at; cbn [fst snd]. rewrite Hi2, Hp. simpl.
    rewrite <- app_assoc. reflexivity.
Qed.

(** Calls at least [ms] apart, each made once the loop has run the timer
    of the call before, are not coalesced: each runs [fn] once, [ms] after
    it was made, with its own arguments, in the order of the calls.  The
    distance alone does not protect a call: a further call made before
    the loop has run the timer that is pending, however long after the
    last call, cancels that timer, so that the last call never runs [fn]
    and the further one does, [ms] after it was made. *)
Theorem calls_apart_each_fire
  (m : Coordinator A U) (c : Z * list A) (cs : list (Z * list A)) :
  0 <= ms <= 2147483647 ->
  reachable fn ms m ->
  clock (loop m) <= fst c ->
  spaced ms (fst c) (map fst cs) ->
  let m0 := Debounce.tick fn (fst c) m in
  let m' := calls fn ms (c :: cs) m in
  let at_due := fun c : Z * list A => (fst c + ms, snd c) in
  (forall T,
     fst (last cs c) + ms <= T ->
     invoked (app (Debounce.tick fn T m'))
     = invoked (app m0) ++ map at_due (c :: cs)) /\
  (forall (c' : Z * list A) T,
     fst (last cs c) <= fst c' -> fst c' + ms <= T ->
     invoked (app (Debounce.tick fn T (call_ahead ms c' m')))
     = invoked (app m0) ++ map at_due (removelast (c :: cs)) ++ [at_due c']).
Proof.
  intros Hms Hr Hc Hs m0 m' at_due. destruct c as [t args].
  cbn [fst snd] in *.
  assert (Ht0 : tracked m0)
    by (apply tick_tracked, (reachable_tracked fn ms), Hr).
  assert (Hc0 : clock (loop m0) = t)
    by (unfold m0; rewrite debounce_tick_clock; lia).
  destruct (debounced_arms ms m0 args Hms Ht0) as (Ha1 & Hc1 & Hi1 & _).
  rewrite Hc0 in Ha1, Hc1.
  destruct (calls_spaced cs (call_at fn ms (t, args) m) t args Hms Ha1 Hc1 Hs)
    as (Ha & Hcl & Hi).
  change (calls fn ms cs (call_at fn ms (t, args) m)) with m' in *.
  cbn zeta in Hi.
  assert (Hbase : invoked (app (call_at fn ms (t, args) m)) = invoked (app m0))
    by (unfold call_at; cbn [fst snd]; exact Hi1).
  rewrite Hbase in Hi. fold at_due in Hi.
  split.
  - intros T HT.
    destruct (tick_late fn m' _ _ T Ha) as (_ & Hp); [lia|exact HT|].
    rewrite Hp. simpl. exact Hi.
  - intros [t' args'] T Ht' HT. cbn [fst snd] in *.
    assert (Hinv : invoked (app m')
                   = invoked (app m0)
                     ++ map at_due (removelast ((t, args) :: cs))).
    { rewrite (app_removelast_last (t, args) (l := (t, args) :: cs)) in Hi
        by discriminate.
      rewrite map_app, app_assoc in Hi. cbn [map] in Hi.
      rewrite last_cons in Hi. apply app_inj_tail in Hi. apply Hi. }
    assert (Htr : tracked (busy t' m'))
      by (apply (armed_tracked _ (fst (last cs (t, args)) + ms)
                   (snd (last cs (t, args))));
          destruct Ha as (i & Hq & Hid); exists i; auto).
    destruct (debounced_arms ms (busy t' m') args' Hms Htr)
      as (Ha2 & Hc2 & Hi2 & _).
    assert (Hck : clock (loop (busy t' m')) = t') by (simpl; lia).
    rewrite Hck in Ha2, Hc2.
    destruct (tick_late fn (call_ahead ms (t', args') m') _ _ T Ha2)
      as (_ & Hp); [unfold call_ahead; cbn [fst snd]; lia|exact HT|].
    rewrite Hp. cbn [call_fn invoked].
    change (app (call_ahead ms (t', args') m'))
      with (app (debounced ms args' (busy t' m'))).
    rewrite Hi2. cbn [busy app]. rewrite Hinv, <- app_assoc. reflexivity.
Qed.
End SpacedFacts.

(** ** The example page *)

Section PageFacts.
Import Timers ExamplePage.
Context {AppState SerializedNode : Type}.
Variable later : nat -> Z -> Z.
Local Abbreviation Page := (Page AppState SerializedNode).
Local Abbreviation Vars := (Vars AppState SerializedNode).
Local Abbreviation PageEvent := (PageEvent AppState SerializedNode).

Lemma autosave_locked args now (v : Vars) :
  isLoading v = true -> autosave later args now v = v.
Proof.
  intros H. unfold autosave. rewrite H.
  destruct (currentCanvasId v), (currentApi v); try reflexivity.
  rewrite orb_true_r. reflexivity.
Qed.

Lemma autosave_ready args now (v : Vars) i api :
  currentCanvasId v = Some i -> i <> EmptyString ->
  currentApi v = Some api -> isLoading v = false ->
  autosave later args now v
  = mkVars (Some i) (Some api) false
           (saved v ++ [CanvasData.mk i "Untitled Canvas" (getNodes api)
                          (getAppState api) now
                          (later (List.length (saved v)) now)]).
Proof.
  intros Hi Hne Ha Hl. unfold autosave. rewrite Hi, Ha, Hl.
  destruct i; [contradiction|]. reflexivity.
Qed.

Lemma page_record_until (t0 t t' : Z)
  (r : CanvasData.t AppState SerializedNode) :
  t <= t' -> page_record t0 t r -> page_record t0 t' r.
Proof.
  unfold page_record. intros H (H1 & H2). split; [lia|exact H2].
Qed.

(** A record written at [now] is stamped [now]. *)
Lemma autosave_records (t0 : Z) args now (v : Vars) :
  (forall n t, t <= later n t) ->
  t0 <= now ->
  Forall (page_record t0 now) (saved v) ->
  Forall (page_record t0 now) (saved (autosave later args now v)).
Proof.
  intros Hl Hn H. unfold autosave.
  destruct (currentCanvasId v) as [[|c i]|]; try exact H;
    destruct (currentApi v) as [api|]; try exact H.
  simpl. destruct (isLoading v); [exact H|]. simpl.
  apply Forall_app. split; [exact H|].
  constructor; [|constructor]. unfold page_record. simpl.
  split; [lia|]. split; [apply Hl|]. split; [reflexivity|discriminate].
Qed.

(** What [autosave] keeps, the passing of time keeps. *)
Lemma page_tick_invariant (P : Vars -> Prop) :
  (forall args now v, P v -> P (autosave later args now v)) ->
  forall T (p : Page),
    P (vars p) -> P (vars (Debounce.tick (autosave later) T p)).
Proof.
  intros Hs T p H. unfold Debounce.tick, advance, vars. simpl.
  apply (fire_invariant (Debounce.call_fn (autosave later))
           (fun m => P (Debounce.ustate (app m)))); [|exact H].
  intros m tm r Hm _ _. simpl. apply Hs, Hm.
Qed.

Lemma stamped_until (t0 : Z) (p p' : Page) :
  clock (loop p) <= clock (loop p') ->
  saved (vars p') = saved (vars p) ->
  stamped t0 p -> stamped t0 p'.
Proof.
  unfold stamped. intros Hc Hs [H1 H2]. split; [lia|]. rewrite Hs.
  eapply Forall_impl; [|exact H2]. intros r. apply page_record_until, Hc.
Qed.

Lemma tick_stamped (t0 T : Z) (p : Page) :
  (forall n t, t <= later n t) ->
  stamped t0 p -> stamped t0 (Debounce.tick (autosave later) T p).
Proof.
  intros Hl H. unfold Debounce.tick, advance.
  set (m := fire (Debounce.call_fn (autosave later))
                 (List.length (queue (loop p))) T p).
  assert (Hm : stamped t0 m).
  { apply (fire_invariant (Debounce.call_fn (autosave later)) (stamped t0));
      [|exact H].
    intros m0 tm r [H1 H2] _ _. unfold stamped, vars. simpl. split; [lia|].
    apply autosave_records; [exact Hl|lia|].
    eapply Forall_impl; [|exact H2]. intros x. apply page_record_until. lia. }
  apply (stamped_until t0 m); [simpl; lia|reflexivity|exact Hm].
Qed.

Lemma flush_stamped (t0 : Z) (p : Page) :
  (forall n t, t <= later n t) ->
  stamped t0 p -> stamped t0 (saveCanvas_flush later p).
Proof.
  intros Hl [H1 H2].
  assert (Hc : clock (clearTimeout (Debounce.timeoutId (app p)) (loop p))
               = clock (loop p))
    by (destruct (Debounce.timeoutId (app p)); reflexivity).
  unfold stamped, saveCanvas_flush, Debounce.flush, Debounce.cancel, vars.
  simpl. rewrite Hc. split; [exact H1|].
  apply autosave_records; [exact Hl|exact H1|exact H2].
Qed.

Lemma page_step_stamped (t0 : Z) (p : Page) (ev : PageEvent) :
  (forall n t, t <= later n t) ->
  stamped t0 p -> stamped t0 (page_step later p ev).
Proof.
  intros Hl H.
  assert (Hsame : forall p' : Page,
             clock (loop p') = clock (loop p) ->
             saved (vars p') = saved (vars p) -> stamped t0 p').
  { intros p' Hc Hs. apply (stamped_until t0 p); [lia|exact Hs|exact H]. }
  assert (Hdeb : stamped t0 (saveCanvas p)).
  { apply Hsame; [|reflexivity].
    unfold saveCanvas, Debounce.debounced, Debounce.schedule, setTimeout.
    simpl. destruct (Debounce.timeoutId (app p)); reflexivity. }
  destruct ev as [id g|id api|o| |api| | | |T]; simpl.
  - apply Hsame; reflexivity.
  - apply Hsame; reflexivity.
  - destruct o; [exact H|apply Hsame; reflexivity|exact H].
  - apply Hsame; reflexivity.
  - apply Hsame; reflexivity.
  - unfold onchange. destruct (isLoading (vars p)); [exact H|exact Hdeb].
  - unfold goBack_begin.
    destruct (currentApi (vars p)); [|apply Hsame; reflexivity].
    destruct (truthy (currentCanvasId (vars p)));
      [|apply Hsame; reflexivity].
    apply flush_stamped; assumption.
  - apply Hsame; reflexivity.
  - apply tick_stamped; assumption.
Qed.

(** Every record the page writes is stamped at the moment it is written:
    its [createdAt] is a reading of the clock taken while the page runs,
    so not before the page was started, whatever the [createdAt] of a
    record that was loaded; its [updatedAt] is the reading taken after
    it, not an earlier time when the clock does not go back in between;
    its name is 'Untitled Canvas' and its id is not empty. *)
Theorem page_writes_fresh_stamps (t0 : Z) (evs : list PageEvent) :
  (forall n t, t <= later n t) ->
  Forall (page_record t0 (clock (loop (page_run later evs (page_init t0)))))
         (saved (vars (page_run later evs (page_init t0)))).
Proof.
  intros Hl.
  assert (G : forall p : Page,
             stamped t0 p -> stamped t0 (page_run later evs p)).
  { induction evs as [|ev evs IH]; intros p H; [exact H|].
    simpl. apply IH, page_step_stamped; assumption. }
  apply G. split; [simpl; lia|constructor].
Qed.

Lemma page_step_locked (p : Page) (ev : PageEvent) :
  isLoading (vars p) = true -> keeps_lock ev ->
  isLoading (vars (page_step later p ev)) = true /\
  saved (vars (page_step later p ev)) = saved (vars p).
Proof.
  intros H Hev. destruct ev as [id g|id api|o| |api| | | |T];
    simpl in Hev; try contradiction; simpl.
  - destruct o; [auto|contradiction|auto].
  - auto.
  - unfold onchange. rewrite H. auto.
  - apply (page_tick_invariant
             (fun v => isLoading v = true /\ saved v = saved (vars p)));
      [|auto].
    intros args now v [H1 H2]. rewrite autosave_locked by exact H1. auto.
Qed.

(** While the lock of the page is held nothing is saved, and a load that
    fails never releases it: after [openCanvas(id)], whatever the editor
    notifies and however long one waits, the page writes nothing until a
    record was restored, the canvas turned out new, or the page was left;
    [goBack] then saves nothing either. *)
Theorem locked_page_saves_nothing (p : Page) (evs : list PageEvent) :
  isLoading (vars p) = true ->
  Forall keeps_lock evs ->
  isLoading (vars (page_run later evs p)) = true /\
  saved (vars (page_run later evs p)) = saved (vars p) /\
  saved (vars (goBack_begin later (page_run later evs p))) = saved (vars p).
Proof.
  intros H Hall.
  assert (G : isLoading (vars (page_run later evs p)) = true /\
              saved (vars (page_run later evs p)) = saved (vars p)).
  { revert p H. induction Hall as [|ev evs Hev _ IH]; intros p H; [auto|].
    simpl. destruct (page_step_locked p ev H Hev) as [H1 H2].
    destruct (IH _ H1) as [I1 I2]. split; [exact I1|congruence]. }
  destruct G as [G1 G2]. split; [exact G1|]. split; [exact G2|].
  rewrite <- G2. unfold goBack_begin.
  destruct (currentApi (vars (page_run later evs p))); [|reflexivity].
  destruct (truthy (currentCanvasId (vars (page_run later evs p))));
    [|reflexivity].
  unfold saveCanvas_flush, Debounce.flush, vars. simpl.
  rewrite autosave_locked by exact G1. reflexivity.
Qed.

(** The page saves what the editor holds when the timer fires, not what
    it held when the change was notified. *)
Theorem page_saves_content_at_fire_time
  (p : Page) (i : string) (api api' : Api AppState SerializedNode) (T : Z) :
  Debounce.tracked p ->
  currentCanvasId (vars p) = Some i -> i <> EmptyString ->
  currentApi (vars p) = Some api -> isLoading (vars p) = false ->
  clock (loop p) + 1000 <= T ->
  saved (vars (Debounce.tick (autosave later) T
                 (editor_now api' (onchange p))))
  = saved (vars p)
    ++ [CanvasData.mk i "Untitled Canvas" (getNodes api') (getAppState api')
          (clock (loop p) + 1000)
          (later (List.length (saved (vars p))) (clock (loop p) + 1000))].
Proof.
  intros Ht Hi Hne Ha Hl HT.
  destruct (debounced_arms 1000 p [] ltac:(lia) Ht)
    as ((j & Hq & Hj) & Hc & _ & Hu).
  assert (Hon : onchange p = Debounce.debounced 1000 [] p)
    by (unfold onchange; rewrite Hl; reflexivity).
  assert (Harm : Debounce.armed (editor_now api' (onchange p))
                   (clock (loop p) + 1000) [])
    by (rewrite Hon; exists j; split; [exact Hq|exact Hj]).
  destruct (tick_late (autosave later) _ _ _ T Harm) as (_ & Hp);
    [rewrite Hon;
     change (clock (loop (editor_now api' (Debounce.debounced 1000 [] p))))
       with (clock (loop (Debounce.debounced 1000 [] p)));
     rewrite Hc; lia|exact HT|].
  unfold vars. rewrite Hp. simpl. rewrite Hon. unfold vars. rewrite Hu.
  fold (vars p).
  rewrite (autosave_ready [] _ _ i api'); simpl; auto.
  rewrite Ha. reflexivity.
Qed.

(** [goBack()] on an open canvas saves at once what the editor holds and
    unschedules the pending save: nothing more is written afterwards. *)
Theorem goBack_saves_now
  (p : Page) (i : string) (api : Api AppState SerializedNode) :
  Debounce.tracked p ->
  currentCanvasId (vars p) = Some i -> i <> EmptyString ->
  currentApi (vars p) = Some api -> isLoading (vars p) = false ->
  saved (vars (goBack_begin later p))
  = saved (vars p)
    ++ [CanvasData.mk i "Untitled Canvas" (getNodes api) (getAppState api)
          (clock (loop p))
          (later (List.length (saved (vars p))) (clock (loop p)))] /\
  forall T,
    saved (vars (Debounce.tick (autosave later) T (goBack_begin later p)))
    = saved (vars (goBack_begin later p)).
Proof.
  intros Ht Hi Hne Ha Hl.
  assert (Hg : goBack_begin later p = saveCanvas_flush later p).
  { unfold goBack_begin. rewrite Ha, Hi. destruct i; [contradiction|].
    reflexivity. }
  rewrite Hg. pose proof (clear_tracked p Ht) as Hq.
  assert (Hc : clock (clearTimeout (Debounce.timeoutId (app p)) (loop p))
               = clock (loop p))
    by (destruct (Debounce.timeoutId (app p)); reflexivity).
  split.
  - unfold saveCanvas_flush, Debounce.flush, Debounce.cancel, vars. simpl.
    rewrite Hc. fold (vars p).
    rewrite (autosave_ready [] _ _ i api Hi Hne Ha Hl). reflexivity.
  - intros T. unfold saveCanvas_flush, Debounce.flush, Debounce.cancel,
      Debounce.tick, advance, vars. simpl. rewrite Hq. reflexivity.
Qed.
End PageFacts.

(** * Further concrete runs *)

Section FurtherRuns.
Import Timers PersistenceManager IndexedDbStorageService Lifecycle Runs.
Local Open Scope string_scope.

Lemma tied_keyed : keyed tied.
Proof. repeat constructor. Qed.

Lemma three_keyed : keyed three.
Proof. repeat constructor. Qed.

Lemma on_a_well_timed : well_timed on_a.
Proof.
  split; [constructor|]. split; [constructor|]. split; [discriminate|].
  constructor.
Qed.

Lemma saveCanvas_keeps_other_ids_witness :
  IndexedDbStorageService.loadCanvas "b" None
    (fst (saveCanvas (canvas "a" "again" 10 500) None tied))
  = IndexedDbStorageService.loadCanvas "b" None tied.
Proof.
  apply (saveCanvas_keeps_other_ids
           (canvas "a" "again" 10 500) tied "b").
  simpl. discriminate.
Defined.

Lemma saveCanvas_last_write_wins_witness :
  fst (saveCanvas (canvas "y" "second" 2 900) None
         (fst (saveCanvas (canvas "y" "first" 2 800) None three)))
  = fst (saveCanvas (canvas "y" "second" 2 900) None three).
Proof.
  apply (saveCanvas_last_write_wins
           (canvas "y" "first" 2 800)
           (canvas "y" "second" 2 900) three).
  reflexivity.
Defined.

Lemma store_stays_keyed_witness :
  keyed (fst (saveCanvas (canvas "aa" "new" 5 500) None tied)) /\
  keyed (fst (deleteCanvas "a" None tied)).
Proof.
  destruct (store_stays_keyed tied (canvas "aa" "new" 5 500)
              "a" None tied_keyed) as (H1 & H2 & _).
  split; [exact H1|exact H2].
Defined.

Lemma deleteCanvas_removes_only_that_id_witness :
  IndexedDbStorageService.loadCanvas "a" None
    (fst (deleteCanvas "a" None tied)) = Resolved None /\
  deleteCanvas "zz" None tied = (tied, Resolved tt).
Proof.
  split.
  - exact (proj1 (deleteCanvas_removes_only_that_id "a" tied)).
  - apply (proj2 (proj2 (deleteCanvas_removes_only_that_id "zz" tied))).
    reflexivity.
Defined.

Lemma listing_has_distinct_ids_witness :
  List.length (onsuccess three) = 3%nat /\
  NoDup (map CanvasMetadata.id (onsuccess three)).
Proof. exact (listing_has_distinct_ids three three_keyed). Defined.

Lemma saved_canvas_listed_first_witness :
  exists rest,
    listCanvases
      (Resolved (fst (saveCanvas (canvas "x" "one" 1 400)
                        None three)))
    = Resolved (metadata_of (canvas "x" "one" 1 400) :: rest).
Proof.
  apply (saved_canvas_listed_first
           (canvas "x" "one" 1 400) three three_keyed).
  intros x [H|[H|[H|[]]]] Hne; subst; simpl in *;
    [contradiction|lia|lia].
Defined.

Lemma changes_coalesce_into_one_write_witness :
  written (app (tick 5000
                  (changes [(0, snap 1); (400, snap 2); (900, snap 3)]
                           on_a)))
  = [CanvasData.mk "a" "Untitled Canvas" [3%nat] 3%nat 0 1900].
Proof.
  assert (Hb : Debounce.burst 1000 (fst (0, snap 1))
                 (map fst [(400, snap 2); (900, snap 3)]))
    by (simpl; lia).
  assert (Hc : clock (loop on_a) <= fst (0, snap 1)) by (simpl; lia).
  assert (Hne : "a" <> "") by discriminate.
  pose proof (changes_coalesce_into_one_write on_a (0, snap 1)
                [(400, snap 2); (900, snap 3)] "a" on_a_well_timed
                eq_refl eq_refl Hne Hc Hb) as H.
  cbn zeta in H. destruct (H 5000) as [_ H2]. apply H2. simpl. lia.
Defined.

Lemma forceSave_writes_now_and_unschedules_witness :
  let w := onStateChange (snap 4) on_a in
  scheduled_saves (forceSave w) = [] /\
  written (app (tick 9000 (forceSave w)))
  = [CanvasData.mk "a" "Untitled Canvas" [4%nat] 4%nat 0 0].
Proof.
  intros w.
  assert (Hw : well_timed w)
    by (apply (step_well_timed on_a (Does (CallOnStateChange (snap 4)))),
          on_a_well_timed).
  destruct (forceSave_writes_now_and_unschedules w Hw) as (H1 & _ & H3 & H4).
  split; [exact H1|]. rewrite H4.
  apply (H3 "a" (snap 4)); [reflexivity|discriminate|reflexivity|reflexivity].
Defined.

(** A change at time 0, a load begun at 500 that settles at 950: the save
    due at 1000 finds the lock held, until 1050, and is lost. *)
Lemma save_due_while_loading_is_dropped_witness :
  let w := fst (loadCanvas_settled NotFound
                  (tick 950 (PersistenceManager.loadCanvas "a"
                               (tick 500 (onStateChange (snap 4) on_a))))) in
  written (app (tick 60000 (tick 1000 w))) = [].
Proof.
  intros w.
  assert (Hl : isLoading (app w) = true) by reflexivity.
  assert (Hs : Forall (fun tm => cb tm = DebouncedSave -> due tm <= 1000)
                      (queue (loop w))).
  { repeat (constructor;
            [simpl; intros H; first [discriminate H|lia]|]).
    constructor. }
  assert (Hr : Forall (fun tm => cb tm = ReleaseLock -> 1000 < due tm)
                      (queue (loop w))).
  { repeat (constructor;
            [simpl; intros H; first [discriminate H|lia]|]).
    constructor. }
  exact (save_due_while_loading_is_dropped w 1000 Hl Hr Hs 60000).
Defined.

Lemma no_session_no_write_witness :
  written (app (run [Does (CallUpdateSnapshot (snap 1)); Does CallForceSave;
                     Does (TimePasses 5000)] (init 0))) = [] /\
  written (app (run [Does CallForceSave; Does (TimePasses 5000)]
                    (fst (createNewCanvas None "b"
                            (onStateChange (snap 1) on_a))))) = [].
Proof.
  split.
  - apply (proj1 (no_session_no_write (init 0)
                    [Does (CallUpdateSnapshot (snap 1)); Does CallForceSave;
                     Does (TimePasses 5000)])).
    + reflexivity.
    + repeat constructor.
  - apply (proj1 (proj2 (no_session_no_write
                           (fst (createNewCanvas None "b"
                                   (onStateChange (snap 1) on_a)))
                           [Does CallForceSave; Does (TimePasses 5000)]))).
    + reflexivity.
    + repeat constructor.
Defined.

Lemma lock_opens_after_settle_delay_witness :
  isLoading
    (app (run ([Does CallForceSave; Does (CallOnStateChange (snap 2));
                Does (TimePasses 50)] ++ [Does (TimePasses 100)])
              (fst (loadCanvas_settled NotFound loading)))) = false.
Proof.
  apply (lock_opens_after_settle_delay loading NotFound
           [Does CallForceSave; Does (CallOnStateChange (snap 2));
            Does (TimePasses 50)] 100).
  - apply (step_well_timed on_a (Does (CallLoadCanvas "a"))),
      on_a_well_timed.
  - repeat constructor.
  - simpl. lia.
Defined.

Lemma load_then_forceSave_writes_record_back_witness :
  let data := CanvasData.mk "a" "first" [7%nat] 7%nat 10 100 in
  let w1 := tick 5000 (fst (loadCanvas_settled (Found data) loading)) in
  CanvasData.id data <> "" /\
  written (app (forceSave w1))
  = (written (app w1)
     ++ [CanvasData.mk (CanvasData.id data) (CanvasData.name data)
           (CanvasData.nodes data) (CanvasData.appState data)
           (CanvasData.createdAt data) (clock (loop w1))])%list.
Proof.
  intros data w1.
  assert (Hne : CanvasData.id data <> "") by discriminate.
  assert (HT : clock (loop loading) + 100 <= 5000) by (simpl; lia).
  split; [exact Hne|].
  exact (load_then_forceSave_writes_record_back loading data 5000 Hne HT).
Defined.

Lemma edit_reaches_store_witness :
  let b := Backed.system_init 0 tied in
  let b0 := Backed.mkSystem on_a (Backed.store b) [] in
  let b' := Backed.system_run
              [Backed.Act (CallOnStateChange (snap 9));
               Backed.Act (TimePasses 2000); Backed.Settle None] b0 in
  IndexedDbStorageService.loadCanvas "a" None (Backed.store b')
  = Resolved (Some (CanvasData.mk "a" "Untitled Canvas" [9%nat] 9%nat 0 1000)).
Proof.
  intros b b0 b'.
  assert (Hne : "a" <> "") by discriminate.
  assert (HT : clock (loop (Backed.world b0)) + 1000 <= 2000)
    by (simpl; lia).
  destruct (edit_reaches_store b0 (snap 9) 2000 None "a" eq_refl
              on_a_well_timed eq_refl eq_refl Hne HT) as (_ & _ & H & _).
  exact (H eq_refl).
Defined.

Lemma written_ids_and_names_never_empty_witness :
  Forall (fun r => CanvasData.name r <> "")
         (written (app (run (Does (CallSetCanvasId "a" (Some ""))
                             :: one_session) (init 0)))).
Proof.
  apply (proj2 (written_ids_and_names_never_empty 0
                  (Does (CallSetCanvasId "a" (Some "")) :: one_session))).
  repeat constructor.
Defined.

(** Three calls at 0, 1000 and 2500 with a window of 1000, each made
    once the timer before has run: three invocations.  A fourth call at
    5000, made before the loop has run the timer of the third, due since
    3500: the third call is lost. *)
Lemma calls_apart_each_fire_witness :
  let m' := Debounce.calls count 1000
              [(0, [1%nat]); (1000, [2%nat]); (2500, [3%nat])]
              (Debounce.init 0 O) in
  Debounce.invoked (app (Debounce.tick count 9000 m'))
  = [(1000, [1%nat]); (2000, [2%nat]); (3500, [3%nat])] /\
  Debounce.invoked
    (app (Debounce.tick count 9000
            (Debounce.call_ahead 1000 (5000, [4%nat]) m')))
  = [(1000, [1%nat]); (2000, [2%nat]); (6000, [4%nat])].
Proof.
  intros m'.
  assert (H0 : 0 <= 1000 <= 2147483647) by lia.
  assert (H1 : Debounce.reachable count 1000 (Debounce.init 0 O))
    by constructor.
  assert (H2 : clock (loop (Debounce.init (A:=nat) 0 O))
               <= fst (0, [1%nat])) by (simpl; lia).
  assert (H3 : Debounce.spaced 1000 (fst (0, [1%nat]))
                 (map fst [(1000, [2%nat]); (2500, [3%nat])]))
    by (simpl; lia).
  destruct (calls_apart_each_fire count 1000 (Debounce.init 0 O)
              (0, [1%nat]) [(1000, [2%nat]); (2500, [3%nat])] H0 H1 H2 H3)
    as [Hrun Hlost].
  split.
  - apply (Hrun 9000). simpl. lia.
  - apply (Hlost (5000, [4%nat]) 9000); simpl; lia.
Defined.

(** The record written for canvas "a", made at time 10 under the name
    "plan" and opened by a page started at 5000: the stamps are those of
    the write, the name is the page's. *)
Lemma page_writes_fresh_stamps_witness :
  (forall n t, t <= next_ms n t) /\
  ExamplePage.saved
    (ExamplePage.vars
       (ExamplePage.page_run next_ms reopened (ExamplePage.page_init 5000)))
  = [CanvasData.mk "a" "Untitled Canvas" [1%nat] 1%nat 6000 6001] /\
  Forall (ExamplePage.page_record 5000
            (clock (loop (ExamplePage.page_run next_ms reopened
                            (ExamplePage.page_init 5000)))))
         (ExamplePage.saved
            (ExamplePage.vars
               (ExamplePage.page_run next_ms reopened
                  (ExamplePage.page_init 5000)))).
Proof.
  assert (Hl : forall n t, t <= next_ms n t)
    by (intros n t; unfold next_ms; lia).
  split; [exact Hl|]. split; [vm_compute; reflexivity|].
  exact (page_writes_fresh_stamps next_ms 5000 reopened Hl).
Defined.

Lemma locked_page_saves_nothing_witness :
  ExamplePage.isLoading (ExamplePage.vars stuck_page) = true /\
  ExamplePage.saved
    (ExamplePage.vars
       (ExamplePage.goBack_begin next_ms
          (ExamplePage.page_run next_ms
             [ExamplePage.Onchange; ExamplePage.EditorNow (editor 2);
              ExamplePage.TimePasses 90000] stuck_page))) = [].
Proof.
  assert (Hl : ExamplePage.isLoading (ExamplePage.vars stuck_page) = true)
    by reflexivity.
  split; [exact Hl|].
  apply (locked_page_saves_nothing next_ms stuck_page
           [ExamplePage.Onchange; ExamplePage.EditorNow (editor 2);
            ExamplePage.TimePasses 90000] Hl).
  repeat constructor.
Defined.

Lemma page_saves_content_at_fire_time_witness :
  ExamplePage.saved
    (ExamplePage.vars
       (Debounce.tick (ExamplePage.autosave next_ms) 3000
          (ExamplePage.editor_now (editor 2)
             (ExamplePage.onchange open_page))))
  = [CanvasData.mk "p1" "Untitled Canvas" [2%nat] 2%nat 1000 1001].
Proof.
  assert (Ht : Debounce.tracked open_page) by constructor.
  assert (Hne : "p1" <> "") by discriminate.
  assert (HT : clock (loop open_page) + 1000 <= 3000) by (simpl; lia).
  exact (page_saves_content_at_fire_time next_ms open_page "p1" (editor 1)
           (editor 2) 3000 Ht eq_refl Hne eq_refl eq_refl HT).
Defined.

Lemma goBack_saves_now_witness :
  ExamplePage.saved
    (ExamplePage.vars (ExamplePage.goBack_begin next_ms open_page))
  = [CanvasData.mk "p1" "Untitled Canvas" [1%nat] 1%nat 0 1].
Proof.
  assert (Ht : Debounce.tracked open_page) by constructor.
  assert (Hne : "p1" <> "") by discriminate.
  exact (proj1 (goBack_saves_now next_ms open_page "p1" (editor 1) Ht eq_refl
                  Hne eq_refl eq_refl)).
Defined.
End FurtherRuns.
